(** * Malicious process path dashboard: ranked views and chain graphs

    A shallow embedding of [app.py], the Streamlit script that shows the
    output of the Markov-chain scoring pipeline: the ranked results table,
    the top-15 chart, the path selector and the process graph.  The script
    is embedded as a function from the things it reads (the uploaded file,
    the widget state, the external collaborators) to the list of elements
    it puts on the page and the way it ends. *)

From Stdlib Require Import Bool Arith ZArith Lia List String Ascii.
From Stdlib Require Import Permutation Sorted SpecFloat.
Import ListNotations.

Open Scope string_scope.

(** ** Exceptions and results *)

(** The exceptions the script and its collaborators raise: subclasses of
    [Exception]. *)
Inductive exn : Type :=
| KeyError (key : string)
| ValueError (msg : string)
| AttributeError (msg : string)
| IndexError
| LibraryError (msg : string).

Inductive result (A : Type) : Type :=
| Ok (a : A)
| Raise (e : exn).

Arguments Ok {A} a.
Arguments Raise {A} e.

Definition bind {A B : Type} (m : result A) (f : A -> result B) : result B :=
  match m with
  | Ok a => f a
  | Raise e => Raise e
  end.

Notation "x <- m ;; k" := (bind m (fun x => k))
  (at level 61, m at next level, right associativity).

Fixpoint mapM {A B : Type} (f : A -> result B) (l : list A) : result (list B) :=
  match l with
  | [] => Ok []
  | x :: l' => y <- f x ;; ys <- mapM f l' ;; Ok (y :: ys)
  end.

(** ** Python strings: [str.split]

    A Python [str] is held as the UTF-8 encoding of its code points.  The
    separator of the script starts and ends with a space, so an occurrence
    of its encoding always starts and ends on a code point boundary:
    splitting the encoding splits the code points. *)

Definition delimiter : string := " → ".

(** [removeprefix sep s] is [Some (s[len(sep):])] when [s.startswith(sep)]. *)
Fixpoint removeprefix (sep s : string) : option string :=
  match sep with
  | EmptyString => Some s
  | String a sep' =>
      match s with
      | EmptyString => None
      | String b s' => if Ascii.eqb a b then removeprefix sep' s' else None
      end
  end.

(** The scan of [str.split(sep)]: [cur] is the segment read since the last
    separator, [s] what is left to read.  At the leftmost occurrence of the
    separator the segment is emitted and the scan goes on after it; the end
    of the string emits the last segment.  [fuel] bounds the number of
    steps; [S (length s)] steps are always enough. *)
Fixpoint split_scan (fuel : nat) (sep cur s : string) : list string :=
  match fuel with
  | O => [cur ++ s]
  | S fuel' =>
      match removeprefix sep s with
      | Some rest => cur :: split_scan fuel' sep "" rest
      | None =>
          match s with
          | EmptyString => [cur]
          | String c s' => split_scan fuel' sep (cur ++ String c "") s'
          end
      end
  end.

(** [s.split(sep)]; an empty separator is a [ValueError]. *)
Definition split (sep s : string) : result (list string) :=
  match sep with
  | EmptyString => Raise (ValueError "empty separator")
  | _ => Ok (split_scan (S (length s)) sep "" s)
  end.

(** [sep.join(l)] *)
Fixpoint join (sep : string) (l : list string) : string :=
  match l with
  | [] => ""
  | [x] => x
  | x :: l' => x ++ sep ++ join sep l'
  end.

(** [sub in s] *)
Fixpoint contains (sub s : string) : bool :=
  match removeprefix sub s with
  | Some _ => true
  | None =>
      match s with
      | EmptyString => false
      | String _ s' => contains sub s'
      end
  end.

(** [c.isspace()] on the ASCII range. *)
Definition is_space (c : ascii) : bool :=
  let n := nat_of_ascii c in
  ((9 <=? n) && (n <=? 13) || (28 <=? n) && (n <=? 32))%nat.

Fixpoint last_char (s : string) : option ascii :=
  match s with
  | EmptyString => None
  | String c EmptyString => Some c
  | String _ s' => last_char s'
  end.

(** [s == s.strip()]: no white space at either end. *)
Definition trimmed (s : string) : bool :=
  match s with
  | EmptyString => true
  | String c _ =>
      negb (is_space c) &&
      match last_char s with
      | Some d => negb (is_space d)
      | None => true
      end
  end.

(** ** networkx: [DiGraph] *)

Module nx.

(** A directed graph without parallel edges.  networkx keeps nodes and
    edges in dictionaries, which keep insertion order and hold a key
    once.  [nodes] and [edges] list them in the order they were added;
    [G.edges] of networkx reads the same edges source by source, which is
    the same order for a chain of tokens that are all different. *)
Record DiGraph : Type := mkDiGraph {
  nodes : list string;
  edges : list (string * string)
}.

Definition empty : DiGraph := mkDiGraph [] [].

Definition has_node (G : DiGraph) (n : string) : bool :=
  existsb (String.eqb n) (nodes G).

Definition has_edge (G : DiGraph) (u v : string) : bool :=
  existsb (fun e => String.eqb u (fst e) && String.eqb v (snd e)) (edges G).

(** [G.add_node(n)] *)
Definition add_node (n : string) (G : DiGraph) : DiGraph :=
  if has_node G n then G else mkDiGraph (nodes G ++ [n]) (edges G).

(** [G.add_edge(u, v)]: both ends become nodes when they are not yet. *)
Definition add_edge (u v : string) (G : DiGraph) : DiGraph :=
  let G1 := add_node v (add_node u G) in
  if has_edge G u v then G1 else mkDiGraph (nodes G1) (edges G1 ++ [(u, v)]).

Definition number_of_nodes (G : DiGraph) : nat := List.length (nodes G).
Definition number_of_edges (G : DiGraph) : nat := List.length (edges G).

(** What [spring_layout] returns: a position for each node. *)
Definition layout : Type := list (string * (spec_float * spec_float)).

End nx.

(** ** The graph of a process chain (lines 118-127) *)

(** [processes[i]] *)
Definition getitem (processes : list string) (i : nat) : result string :=
  match nth_error processes i with
  | Some p => Ok p
  | None => Raise IndexError
  end.

(** The body of the loop, at index [i] and item [p]. *)
Definition chain_step (processes : list string) (i : nat) (p : string)
    (G : nx.DiGraph) : result nx.DiGraph :=
  let G := nx.add_node p G in
  if (Z.of_nat i <? Z.of_nat (List.length processes) - 1)%Z then
    u <- getitem processes i ;;
    v <- getitem processes (i + 1)%nat ;;
    Ok (nx.add_edge u v G)
  else Ok G.

(** [for i, p in enumerate(l)], started at index [i]. *)
Fixpoint for_enumerate {S : Type} (body : nat -> string -> S -> result S)
    (i : nat) (l : list string) (s : S) : result S :=
  match l with
  | [] => Ok s
  | p :: l' => s' <- body i p s ;; for_enumerate body (i + 1)%nat l' s'
  end.

Definition build_graph (processes : list string) : result nx.DiGraph :=
  for_enumerate (chain_step processes) 0%nat processes nx.empty.

(** What holds of the graph when the loop has gone through [done] and
    [rest] is still to come: the graph holds nothing twice, its nodes are
    tokens already met, and the token the last edge points to is a node
    already. *)
Definition chain_invariant (done rest : list string) (G : nx.DiGraph) : Prop :=
  NoDup (nx.nodes G) /\
  NoDup (nx.edges G) /\
  incl (nx.nodes G) (done ++ rest) /\
  (List.length (nx.nodes G) <=
     List.length done + match done, rest with
                        | _ :: _, _ :: _ => 1
                        | _, _ => 0
                        end)%nat /\
  (List.length (nx.edges G) <= List.length done)%nat /\
  (done <> [] -> forall p rest', rest = p :: rest' -> In p (nx.nodes G)).

(** ** numpy: indexing and [argsort] *)

Module np.

(** [a[mask]], with a boolean mask *)
Definition bool_index {A : Type} (mask : list bool) (a : list A) : list A :=
  map snd (filter fst (combine mask a)).

(** [np.nonzero(mask)[0]] *)
Definition nonzero (mask : list bool) : list nat :=
  bool_index mask (seq 0 (List.length mask)).

(** [a[ix]], with an array of positions; a position outside [a] is an
    [IndexError]. *)
Definition take {A : Type} (a : list A) (ix : list nat) : result (list A) :=
  mapM (fun i => match nth_error a i with
                 | Some x => Ok x
                 | None => Raise IndexError
                 end) ix.

(** The [kind] argument of [argsort] and of pandas' [sort_values]. *)
Inductive kind : Type := quicksort | mergesort | heapsort | stable.

Definition is_stable (k : kind) : bool :=
  match k with
  | mergesort | stable => true
  | quicksort | heapsort => false
  end.

(** numpy's sorting routines are not part of the script: [argsort] is
    taken as it is documented.  [argsort lt k a] is [a.argsort(kind=k)]
    for an array whose elements compare by [lt]. *)
Record sorting : Type := mkSorting {
  argsort : forall A : Type, (A -> A -> bool) -> kind -> list A -> list nat
}.

(** [lt] is a strict weak order on the elements of [a], as [<] is on
    the floats that are not NaN. *)
Definition strict_weak_on {A : Type} (lt : A -> A -> bool) (a : list A) : Prop :=
  forall x y z, In x a -> In y a -> In z a ->
    lt x x = false /\
    (lt x y = true -> lt y z = true -> lt x z = true) /\
    (lt x y = false -> lt y z = false -> lt x z = false).

(** Position [i] may stand before position [j] in an ascending order. *)
Definition ascending {A : Type} (lt : A -> A -> bool) (a : list A) (i j : nat) : Prop :=
  forall x y, nth_error a i = Some x -> nth_error a j = Some y -> lt y x = false.

(** The same, with equal elements in the order of their positions. *)
Definition ascending_stable {A : Type} (lt : A -> A -> bool) (a : list A)
    (i j : nat) : Prop :=
  forall x y, nth_error a i = Some x -> nth_error a j = Some y ->
    lt x y = true \/ (lt y x = false /\ i < j).

(** The documented contract of [argsort]: the result lists every position
    once, the elements read in that order ascend, and the kinds
    [mergesort] and [stable] keep equal elements in their order.  The
    default kind, [quicksort], promises no order among equal elements. *)
Definition lawful (s : sorting) : Prop :=
  forall (A : Type) (lt : A -> A -> bool) (k : kind) (a : list A),
    Permutation (argsort s A lt k a) (seq 0 (List.length a)) /\
    (strict_weak_on lt a ->
       StronglySorted (ascending lt a) (argsort s A lt k a)) /\
    (strict_weak_on lt a -> is_stable k = true ->
       StronglySorted (ascending_stable lt a) (argsort s A lt k a)).

(** Two sorting routines that can be run.  Both insert the positions one
    by one, from the last to the first, into a sorted list of positions;
    [goes_before i j] says whether the new position [i] is put before [j]. *)
Fixpoint insert (goes_before : nat -> nat -> bool) (i : nat) (l : list nat)
    : list nat :=
  match l with
  | [] => [i]
  | j :: l' =>
      if goes_before i j then i :: j :: l'
      else j :: insert goes_before i l'
  end.

Definition insertion_argsort (goes_before : nat -> nat -> bool) (n : nat)
    : list nat :=
  fold_right (insert goes_before) [] (seq 0 n).

Definition lt_at {A : Type} (lt : A -> A -> bool) (a : list A) (i j : nat) : bool :=
  match nth_error a i, nth_error a j with
  | Some x, Some y => lt x y
  | _, _ => false
  end.

(** Equal elements stay in the order of their positions. *)
Definition argsort_stable {A : Type} (lt : A -> A -> bool) (a : list A) : list nat :=
  insertion_argsort (fun i j => negb (lt_at lt a j i)) (List.length a).

(** Equal elements come out in the reverse order of their positions. *)
Definition argsort_reversing {A : Type} (lt : A -> A -> bool) (a : list A)
    : list nat :=
  insertion_argsort (fun i j => lt_at lt a i j) (List.length a).

(** Every kind stable. *)
Definition all_stable : sorting :=
  mkSorting (fun A lt _ a => argsort_stable lt a).

(** Stable where the documentation promises it, reversing elsewhere. *)
Definition stable_on_request : sorting :=
  mkSorting (fun A lt k a =>
    if is_stable k then argsort_stable lt a else argsort_reversing lt a).

End np.

(** ** pandas: [DataFrame] *)

Module pd.

(** A column holds values of one dtype. *)
Inductive column : Type :=
| Float64 (a : list spec_float)
| Int64 (a : list Z)
| Object (a : list string).

(** A Python value read from a column. *)
Inductive scalar : Type :=
| PyFloat (x : spec_float)
| PyInt (z : Z)
| PyStr (s : string).

(** The row labels and the named columns.  pandas lets a label head more
    than one column ([count]); [is_unique] says that none does.  [lookup]
    reads the first column of a label, which is the column of the label
    when the labels are distinct. *)
Record DataFrame : Type := mkDataFrame {
  index : column;
  columns : list (string * column)
}.

Record Series : Type := mkSeries {
  series_index : column;
  values : column
}.

Definition size (c : column) : nat :=
  match c with
  | Float64 a => List.length a
  | Int64 a => List.length a
  | Object a => List.length a
  end.

(** [len(df)] *)
Definition len (df : DataFrame) : nat := size (index df).

(** A frame is rectangular: every column has one value per row label. *)
Definition rectangular (df : DataFrame) : Prop :=
  Forall (fun c => size (snd c) = len df) (columns df).

Fixpoint lookup (key : string) (cols : list (string * column)) : option column :=
  match cols with
  | [] => None
  | (k, c) :: cols' => if String.eqb key k then Some c else lookup key cols'
  end.

(** How many columns the label [key] heads. *)
Fixpoint count (key : string) (cols : list (string * column)) : nat :=
  match cols with
  | [] => 0
  | (k, _) :: cols' => (if String.eqb key k then 1 else 0) + count key cols'
  end.

Fixpoint labels_distinct (cols : list (string * column)) : bool :=
  match cols with
  | [] => true
  | (k, _) :: cols' => Nat.eqb (count k cols') 0 && labels_distinct cols'
  end.

(** [df.columns.is_unique] *)
Definition is_unique (df : DataFrame) : bool := labels_distinct (columns df).

(** [key in df.columns] *)
Definition has_column (df : DataFrame) (key : string) : bool :=
  match lookup key (columns df) with
  | Some _ => true
  | None => false
  end.

(** [df[key]] *)
Definition getitem (df : DataFrame) (key : string) : result Series :=
  match lookup key (columns df) with
  | Some c => Ok (mkSeries (index df) c)
  | None => Raise (KeyError key)
  end.

(** [s.tolist()] *)
Definition tolist (s : Series) : list scalar :=
  match values s with
  | Float64 a => map PyFloat a
  | Int64 a => map PyInt a
  | Object a => map PyStr a
  end.

Definition isna (x : spec_float) : bool :=
  match x with
  | S754_nan => true
  | _ => false
  end.

(** [<] on the floats that are not NaN is the order of these triples
    read from left to right: the class of the float (infinities, signs,
    zero), then the exponent, then the mantissa. *)
Definition float_key (x : spec_float) : Z * Z * Z :=
  match x with
  | S754_infinity true => (-2, 0, 0)
  | S754_finite true m e => (-1, - e, - Zpos m)
  | S754_zero _ => (0, 0, 0)
  | S754_finite false m e => (1, e, Zpos m)
  | S754_infinity false => (2, 0, 0)
  | S754_nan => (3, 0, 0)
  end%Z.

Definition key_lt (k1 k2 : Z * Z * Z) : Prop :=
  let '(a1, b1, c1) := k1 in
  let '(a2, b2, c2) := k2 in
  (a1 < a2 \/ (a1 = a2 /\ (b1 < b2 \/ (b1 = b2 /\ c1 < c2))))%Z.

(** Position [i] may stand before position [j] when [a] is read in
    descending order with the missing values last: no value is smaller
    than a later one, and the missing values close the list in the
    order of their positions. *)
Definition descending {A : Type} (lt : A -> A -> bool) (isna : A -> bool)
    (a : list A) (i j : nat) : Prop :=
  forall x y, nth_error a i = Some x -> nth_error a j = Some y ->
    (isna x = false /\ isna y = false /\ lt x y = false) \/
    (isna x = false /\ isna y = true) \/
    (isna x = true /\ isna y = true /\ i < j).

(** The same, with equal values in the order of their positions. *)
Definition descending_stable {A : Type} (lt : A -> A -> bool) (isna : A -> bool)
    (a : list A) (i j : nat) : Prop :=
  forall x y, nth_error a i = Some x -> nth_error a j = Some y ->
    (isna x = false /\ isna y = false /\
       (lt y x = true \/ (lt x y = false /\ i < j))) \/
    (isna x = false /\ isna y = true) \/
    (isna x = true /\ isna y = true /\ i < j).

(** The two orders, for the values of a column of any dtype: floats
    compare by [<] with NaN as the missing value, integers by [<],
    strings by [<] on their characters. *)
Definition column_descending (c : column) (i j : nat) : Prop :=
  match c with
  | Float64 a => descending SFltb isna a i j
  | Int64 a => descending Z.ltb (fun _ => false) a i j
  | Object a => descending String.ltb (fun _ => false) a i j
  end.

Definition column_descending_stable (c : column) (i j : nat) : Prop :=
  match c with
  | Float64 a => descending_stable SFltb isna a i j
  | Int64 a => descending_stable Z.ltb (fun _ => false) a i j
  | Object a => descending_stable String.ltb (fun _ => false) a i j
  end.

(** [nargsort(items, kind, ascending, na_position="last")], the routine
    [sort_values] takes its positions from when sorting by one column:
    the missing values are set apart, the others are sorted (for a
    descending order: reversed, sorted and reversed again), and the
    positions of the missing values are put last. *)
Definition nargsort {A : Type} (s : np.sorting) (lt : A -> A -> bool)
    (isna : A -> bool) (items : list A) (kind : np.kind) (ascending : bool)
    : result (list nat) :=
  let idx := seq 0 (List.length items) in
  let mask := map isna items in
  let non_nans := np.bool_index (map negb mask) items in
  let non_nan_idx := np.bool_index (map negb mask) idx in
  let nan_idx := np.nonzero mask in
  let non_nans := if ascending then non_nans else rev non_nans in
  let non_nan_idx := if ascending then non_nan_idx else rev non_nan_idx in
  indexer <- np.take non_nan_idx (np.argsort s A lt kind non_nans) ;;
  let indexer := if ascending then indexer else rev indexer in
  Ok (indexer ++ nan_idx)%list.

Definition nargsort_column (s : np.sorting) (c : column) (kind : np.kind)
    (ascending : bool) : result (list nat) :=
  match c with
  | Float64 a => nargsort s SFltb isna a kind ascending
  | Int64 a => nargsort s Z.ltb (fun _ => false) a kind ascending
  | Object a => nargsort s String.ltb (fun _ => false) a kind ascending
  end.

Definition take_column (c : column) (ix : list nat) : result column :=
  match c with
  | Float64 a => a' <- np.take a ix ;; Ok (Float64 a')
  | Int64 a => a' <- np.take a ix ;; Ok (Int64 a')
  | Object a => a' <- np.take a ix ;; Ok (Object a')
  end.

(** [df.take(ix)]: the rows at the positions [ix], in that order. *)
Definition take (df : DataFrame) (ix : list nat) : result DataFrame :=
  index' <- take_column (index df) ix ;;
  columns' <- mapM (fun kc => c' <- take_column (snd kc) ix ;; Ok (fst kc, c'))
                   (columns df) ;;
  Ok (mkDataFrame index' columns').

(** [self.sort_values(by_, ascending=ascending, inplace=inplace, kind=kind)]
    gives what the call returns and what [self] is after it.  A label
    that heads no column is a [KeyError], a label that heads more than
    one column a [ValueError].  With [inplace=False] the call returns a
    new frame and leaves [self]; with [inplace=True] it returns [None]
    and [self] becomes the sorted frame. *)
Definition sort_values (s : np.sorting) (self : DataFrame) (by_ : string)
    (ascending inplace : bool) (kind : np.kind)
    : result (option DataFrame * DataFrame) :=
  match lookup by_ (columns self) with
  | None => Raise (KeyError by_)
  | Some k =>
      if (1 <? count by_ (columns self))%nat
      then Raise (ValueError ("The column label '" ++ by_ ++ "' is not unique."))
      else
        indexer <- nargsort_column s k kind ascending ;;
        sorted <- take self indexer ;;
        if inplace then Ok (None, sorted) else Ok (Some sorted, self)
  end.

Definition head_column (c : column) (n : nat) : column :=
  match c with
  | Float64 a => Float64 (firstn n a)
  | Int64 a => Int64 (firstn n a)
  | Object a => Object (firstn n a)
  end.

(** [df.head(n)] *)
Definition head (df : DataFrame) (n : nat) : DataFrame :=
  mkDataFrame (head_column (index df) n)
              (map (fun kc => (fst kc, head_column (snd kc) n)) (columns df)).

(** [x.head(n)] where [x] is what a call returned; [None] has no [head]. *)
Definition head_of (x : option DataFrame) (n : nat) : result DataFrame :=
  match x with
  | Some df => Ok (head df n)
  | None => Raise (AttributeError "head")
  end.

Fixpoint drop (key : string) (cols : list (string * column))
    : list (string * column) :=
  match cols with
  | [] => []
  | (k, c) :: cols' =>
      if String.eqb key k then drop key cols' else (k, c) :: drop key cols'
  end.

(** [df.set_index(key)]: a new frame labelled by the column [key], which
    leaves the columns. *)
Definition set_index (df : DataFrame) (key : string) : result DataFrame :=
  match lookup key (columns df) with
  | Some c => Ok (mkDataFrame c (drop key (columns df)))
  | None => Raise (KeyError key)
  end.

End pd.

(** ** The texts of the page *)

Module text.

(** line 16 *)
Definition title : string :=
  "🔍 Malicious Process Path Detection Dashboard".

(** line 17 *)
Definition intro : string :=
  "
Upload a CSV file containing process logs (Sysmon, Defender, or custom format).
The system will apply your **Context-Aware Weighted Markov Chain model** to detect
statistically unusual or risky process paths.
".

(** line 27 *)
Definition upload_label : string :=
  "Upload a CSV log file".

(** line 30 *)
Definition upload_first : string :=
  "Please upload a CSV file to begin analysis.".

(** line 40 *)
Definition csv_failed : string :=
  "❌ Failed to read CSV file. Make sure it's valid.".

(** line 44 *)
Definition raw_preview : string :=
  "📄 Raw Data Preview".

(** line 51 *)
Definition running : string :=
  "⚙️ Running Markov Chain Analysis...".

(** line 57 *)
Definition pipeline_failed : string :=
  "❌ Error while running the analysis pipeline.".

(** line 61 *)
Definition completed : string :=
  "Analysis completed!".

(** line 67 *)
Definition ranked_heading : string :=
  "🔥 Suspicious Process Paths (Ranked by Threat Score)".

(** line 68 *)
Definition ranked_blurb : string :=
  "
Each row represents an analyzed process chain.  
Threat score is calculated using:
- Transition rarity (Markov probability)  
- Contextual risk weighting  
- Composite scoring  
".

(** line 86 *)
Definition top15_heading : string :=
  "📊 Top 15 Threat Scores".

(** line 95 *)
Definition chart_warning : string :=
  "Could not create chart due to missing 'path' or 'threat_score' fields.".

(** line 101 *)
Definition graph_heading : string :=
  "🧬 Process Tree Graph (Optional Visualisation)".

(** line 103 *)
Definition graph_blurb : string :=
  "
Select a process path below to visualise it as a graph.
".

(** line 109 *)
Definition select_label : string :=
  "Choose a process path".

(** line 113 *)
Definition render_label : string :=
  "Render Graph".

(** line 135 *)
Definition render_failed : string :=
  "❌ Could not render graph.".

(** line 138 *)
Definition path_not_found : string :=
  "Column 'path' not found — graph visualisation skipped.".

(** line 144 *)
Definition rule : string :=
  "---".

(** line 145 *)
Definition footer : string :=
  "Made for the Master Thesis project **Context-Aware Weighted Markov Chains for Detecting Malicious Process Paths**".

End text.

(** ** Streamlit: the page *)

Module st.

(** What [st.pyplot(fig)] shows: the graph as [nx.draw] was asked to
    draw it. *)
Record figure : Type := mkFigure {
  figsize : Z * Z;
  graph : nx.DiGraph;
  pos : nx.layout;
  with_labels : bool;
  node_size : Z;
  font_size : Z
}.

(** The elements the script puts on the page. *)
Inductive element : Type :=
| Title (body : string)
| Write (body : string)
| Markdown (body : string)
| Subheader (body : string)
| Info (body : string)
| Success (body : string)
| Warning (body : string)
| Error (body : string)
| Code (traceback : exn)
| FileUploader (label : string)
| Dataframe (data : pd.DataFrame)
| BarChart (data : pd.Series)
| Selectbox (label : string) (options : list pd.scalar)
| Button (label : string)
| Pyplot (fig : figure).

(** What the operator did before this run of the script. *)
Record session : Type := mkSession {
  uploaded_file : option string;
  selectbox_index : nat;
  button_clicked : bool
}.

End st.

(** How a run of (a part of) the script ends.  [st.stop()] ends it with a
    script-control exception, which derives from [BaseException]:
    [except Exception] lets it through, a bare [except:] does not. *)
Inductive outcome (A : Type) : Type :=
| Done (a : A)
| Raised (e : exn)
| Stopped.

Arguments Done {A} a.
Arguments Raised {A} e.
Arguments Stopped {A}.

(** A run of (a part of) the script: the elements shown, in order, and
    how the run ended.  Elements shown before an exception stay shown. *)
Definition script (A : Type) : Type := (list st.element * outcome A)%type.

Definition ret {A : Type} (a : A) : script A := ([], Done a).

Definition lift {A : Type} (r : result A) : script A :=
  match r with
  | Ok a => ([], Done a)
  | Raise e => ([], Raised e)
  end.

Definition show (e : st.element) : script unit := ([e], Done tt).

Definition and_then {A B : Type} (m : script A) (f : A -> script B) : script B :=
  match m with
  | (out, Done a) => let (out', r) := f a in ((out ++ out')%list, r)
  | (out, Raised e) => (out, Raised e)
  | (out, Stopped) => (out, Stopped)
  end.

Notation "x <~ m ;; k" := (and_then m (fun x => k))
  (at level 61, m at next level, right associativity).
Notation "m ;;; k" := (and_then m (fun _ => k))
  (at level 61, right associativity).

(** [try: body / except Exception as e: handler] *)
Definition try_except {A : Type} (body : script A) (handler : exn -> script A)
    : script A :=
  match body with
  | (out, Raised e) => let (out', r) := handler e in ((out ++ out')%list, r)
  | _ => body
  end.

(** [try: body / except: handler] *)
Definition try_except_bare {A : Type} (body : script A) (handler : script A)
    : script A :=
  match body with
  | (out, Done a) => (out, Done a)
  | (out, _) => let (out', r) := handler in ((out ++ out')%list, r)
  end.

(** [st.stop()] *)
Definition stop {A : Type} : script A := ([], Stopped).

(** [st.selectbox(label, options)] returns the chosen option; with no
    options it returns [None]. *)
Definition selectbox (s : st.session) (label : string) (options : list pd.scalar)
    : script (option pd.scalar) :=
  show (st.Selectbox label options) ;;;
  ret (nth_error options (st.selectbox_index s)).

(** [st.button(label)] *)
Definition button (s : st.session) (label : string) : script bool :=
  show (st.Button label) ;;; ret (st.button_clicked s).

(** [st.dataframe(df)]: the frame goes to the page as an Arrow table,
    which a frame with a repeated column label cannot be made into. *)
Definition dataframe (df : pd.DataFrame) : script unit :=
  if pd.is_unique df then show (st.Dataframe df)
  else lift (Raise (ValueError "Duplicate column names found")).

(** ** The collaborators of the script *)

(** The CSV reader, the scoring pipeline, numpy's sorting, the layout
    and drawing routines of networkx and matplotlib and the rendering of
    the figure by [st.pyplot] are used, not implemented, by the script.
    Each of them returns or raises.  [pd.read_csv] gives the columns of a
    file distinct labels: it renames a label that comes again. *)
Record world : Type := mkWorld {
  read_csv : string -> result pd.DataFrame;
  analyze_paths : pd.DataFrame -> result pd.DataFrame;
  numpy : np.sorting;
  import_networkx_pyplot : result unit;
  subplots : Z * Z -> result unit;
  spring_layout : nx.DiGraph -> Z -> result nx.layout;
  draw : nx.DiGraph -> nx.layout -> bool -> Z -> Z -> result unit;
  pyplot : st.figure -> result unit
}.

(** ** The script *)

(** [selected_path.split(sep)]: only a [str] has [split]. *)
Definition split_selected (selected_path : option pd.scalar) (sep : string)
    : result (list string) :=
  match selected_path with
  | Some (pd.PyStr s) => split sep s
  | _ => Raise (AttributeError "split")
  end.

(** Lines 67-80: the ranked table.  Each stage gives back the frame the
    variable [results] holds after it. *)
Definition results_table (w : world) (results : pd.DataFrame)
    : script pd.DataFrame :=
  show (st.Subheader text.ranked_heading) ;;;
  show (st.Write text.ranked_blurb) ;;;
  r <~ lift (pd.sort_values (numpy w) results "threat_score" false false
               np.quicksort) ;;
  let (ranked, results) := r in
  view <~ lift (pd.head_of ranked 50) ;;
  dataframe view ;;;
  ret results.

(** Lines 90-92: the argument of [st.bar_chart]. *)
Definition top15 (w : world) (results : pd.DataFrame)
    : result (pd.Series * pd.DataFrame) :=
  r <- pd.sort_values (numpy w) results "threat_score" false false
         np.quicksort ;;
  let (ranked, results) := r in
  top <- pd.head_of ranked 15 ;;
  by_path <- pd.set_index top "path" ;;
  scores <- pd.getitem by_path "threat_score" ;;
  Ok (scores, results).

(** Lines 86-95: the chart. *)
Definition threat_score_plot (w : world) (results : pd.DataFrame)
    : script pd.DataFrame :=
  show (st.Subheader text.top15_heading) ;;;
  try_except_bare
    (r <~ lift (top15 w results) ;;
     let (scores, results) := r in
     show (st.BarChart scores) ;;;
     ret results)
    (show (st.Warning text.chart_warning) ;;;
     ret results).

(** Lines 115-132: the body of the [try] under the button.  The figure
    is on the page when [st.pyplot] has rendered it. *)
Definition render_graph (w : world) (selected_path : option pd.scalar)
    : script unit :=
  lift (import_networkx_pyplot w) ;;;
  processes <~ lift (split_selected selected_path delimiter) ;;
  G <~ lift (build_graph processes) ;;
  lift (subplots w (10, 5)%Z) ;;;
  pos <~ lift (spring_layout w G 42) ;;
  lift (draw w G pos true 2500 10) ;;;
  let fig := st.mkFigure (10, 5)%Z G pos true 2500 10 in
  lift (pyplot w fig) ;;;
  show (st.Pyplot fig).

(** Lines 113-136: the button's action. *)
Definition render_action (w : world) (selected_path : option pd.scalar)
    : script unit :=
  try_except (render_graph w selected_path)
    (fun e =>
       show (st.Error text.render_failed) ;;;
       show (st.Code e)).

(** Lines 101-138: the selector and the graph. *)
Definition process_graph (w : world) (s : st.session) (results : pd.DataFrame)
    : script unit :=
  show (st.Subheader text.graph_heading) ;;;
  show (st.Write text.graph_blurb) ;;;
  if pd.has_column results "path" then
    paths <~ lift (pd.getitem results "path") ;;
    selected_path <~ selectbox s text.select_label (pd.tolist paths) ;;
    clicked <~ button s text.render_label ;;
    if clicked then render_action w selected_path else ret tt
  else
    show (st.Info text.path_not_found).

(** Lines 61-145: what is shown once the pipeline has returned. *)
Definition display (w : world) (s : st.session) (results : pd.DataFrame)
    : script unit :=
  show (st.Success text.completed) ;;;
  results <~ results_table w results ;;
  results <~ threat_score_plot w results ;;
  process_graph w s results ;;;
  show (st.Markdown text.rule) ;;;
  show (st.Write text.footer).

(** The whole script. *)
Definition app (w : world) (s : st.session) : script unit :=
  show (st.Title text.title) ;;;
  show (st.Write text.intro) ;;;
  show (st.FileUploader text.upload_label) ;;;
  match st.uploaded_file s with
  | None =>
      show (st.Info text.upload_first) ;;; stop
  | Some file =>
      data <~ try_except (lift (read_csv w file))
                (fun e =>
                   show (st.Error text.csv_failed) ;;;
                   show (st.Code e) ;;;
                   stop) ;;
      show (st.Subheader text.raw_preview) ;;;
      (* the labels of [data] are distinct: it comes from [pd.read_csv] *)
      show (st.Dataframe (pd.head data 50)) ;;;
      show (st.Subheader text.running) ;;;
      results <~ try_except (lift (analyze_paths w data))
                   (fun e =>
                      show (st.Error text.pipeline_failed) ;;;
                      show (st.Code e) ;;;
                      stop) ;;
      display w s results
  end.

(** ** Sample data *)

(** The float of an integer, as IEEE 754 binary64 holds it. *)
Definition float_of_Z (z : Z) : spec_float := binary_normalize 53 1024 z 0 false.

(** Twenty chains with one and the same score. *)
Definition tied_paths : list string :=
    ["winword.exe → cmd.exe"; "winword.exe → powershell.exe";
     "winword.exe → wscript.exe"; "winword.exe → cscript.exe";
     "winword.exe → mshta.exe"; "winword.exe → rundll32.exe";
     "winword.exe → regsvr32.exe"; "winword.exe → certutil.exe";
     "winword.exe → bitsadmin.exe"; "winword.exe → schtasks.exe";
     "winword.exe → net.exe"; "winword.exe → whoami.exe";
     "winword.exe → tasklist.exe"; "winword.exe → ipconfig.exe";
     "winword.exe → nltest.exe"; "winword.exe → wmic.exe";
     "winword.exe → sc.exe"; "winword.exe → reg.exe"; "winword.exe → at.exe";
     "winword.exe → msiexec.exe"].

Definition tied_results : pd.DataFrame :=
  pd.mkDataFrame (pd.Int64 (map Z.of_nat (seq 0 20)))
    [("path", pd.Object tied_paths);
     ("threat_score", pd.Float64 (repeat (float_of_Z 7) 20))].

(** Four chains, one of them twice and one without a score. *)
Definition ranked_results : pd.DataFrame :=
  pd.mkDataFrame (pd.Int64 [0; 1; 2; 3]%Z)
    [("path", pd.Object ["explorer.exe → cmd.exe"; "winword.exe → cmd.exe";
                         "explorer.exe → cmd.exe"; "services.exe"]);
     ("threat_score", pd.Float64 [float_of_Z 2; float_of_Z 9; S754_nan;
                                  float_of_Z 5])].

Definition scores_without_paths : pd.DataFrame :=
  pd.mkDataFrame (pd.Int64 [0; 1]%Z)
    [("threat_score", pd.Float64 [float_of_Z 1; float_of_Z 3])].

Definition paths_without_scores : pd.DataFrame :=
  pd.mkDataFrame (pd.Int64 [0; 1]%Z)
    [("path", pd.Object ["cmd.exe → powershell.exe"; "explorer.exe"])].

Definition neither_column : pd.DataFrame :=
  pd.mkDataFrame (pd.Int64 [0; 1]%Z)
    [("process", pd.Object ["cmd.exe"; "explorer.exe"])].

(** A result set in which the label [threat_score] heads two columns. *)
Definition repeated_score_label : pd.DataFrame :=
  pd.mkDataFrame (pd.Int64 [0; 1]%Z)
    [("path", pd.Object ["cmd.exe → powershell.exe"; "explorer.exe"]);
     ("threat_score", pd.Float64 [float_of_Z 1; float_of_Z 3]);
     ("threat_score", pd.Float64 [float_of_Z 4; float_of_Z 2])].

(** A world whose pipeline returns [results] and whose layout puts every
    node at the origin. *)
Definition sample_world (s : np.sorting) (results : pd.DataFrame) : world :=
  mkWorld (fun _ => Ok results) (fun _ => Ok results) s (Ok tt)
    (fun _ => Ok tt)
    (fun G _ => Ok (map (fun n => (n, (S754_zero false, S754_zero false)))
                        (nx.nodes G)))
    (fun _ _ _ _ _ => Ok tt)
    (fun _ => Ok tt).


(** A world whose file has the columns of [ranked_results] and whose
    pipeline returns [repeated_score_label]. *)
Definition repeated_label_world : world :=
  mkWorld (fun _ => Ok ranked_results) (fun _ => Ok repeated_score_label)
    np.all_stable (Ok tt) (fun _ => Ok tt) (fun _ _ => Ok [])
    (fun _ _ _ _ _ => Ok tt) (fun _ => Ok tt).

Definition sample_session : st.session := st.mkSession (Some "log.csv") 0 true.

(** A session before any upload. *)
Definition no_upload : st.session := st.mkSession None 0 false.

(** A world whose CSV reader raises, and one whose pipeline raises. *)
Definition unreadable_world : world :=
  mkWorld (fun _ => Raise (ValueError "No columns to parse from file"))
    (fun data => Ok data) np.stable_on_request (Ok tt) (fun _ => Ok tt)
    (fun _ _ => Ok []) (fun _ _ _ _ _ => Ok tt) (fun _ => Ok tt).

Definition failing_pipeline_world : world :=
  mkWorld (fun _ => Ok ranked_results)
    (fun _ => Raise (KeyError "Image")) np.stable_on_request (Ok tt)
    (fun _ => Ok tt) (fun _ _ => Ok []) (fun _ _ _ _ _ => Ok tt)
    (fun _ => Ok tt).

(** A world whose layout succeeds for the seed 42 only. *)
Definition seed_42_world : world :=
  mkWorld (fun _ => Ok ranked_results) (fun _ => Ok ranked_results)
    np.stable_on_request (Ok tt) (fun _ => Ok tt)
    (fun G seed =>
       if (seed =? 42)%Z
       then Ok (map (fun n => (n, (S754_zero false, S754_zero false)))
                    (nx.nodes G))
       else Raise (ValueError "seed"))
    (fun _ _ _ _ _ => Ok tt)
    (fun _ => Ok tt).

(** [zip(processes, processes[1:])]: each token with the token after it. *)
Fixpoint consecutive_pairs (l : list string) : list (string * string) :=
  match l with
  | x :: (y :: _) as rest => (x, y) :: consecutive_pairs rest
  | _ => []
  end.

(** The tokens the loop has touched when it has gone through [done]: the
    edge of the last step has already made a node of the next token. *)
Definition touched (done rest : list string) : list string :=
  match done with
  | [] => []
  | _ :: _ => (done ++ firstn 1 rest)%list
  end.

(** [c in s], for a character *)
Fixpoint has_char (c : ascii) (s : string) : bool :=
  match s with
  | EmptyString => false
  | String d s' => Ascii.eqb c d || has_char c s'
  end.

(** A session with a file and a selection, the button not clicked. *)
Definition idle_session : st.session := st.mkSession (Some "log.csv") 0 false.

(** * Properties *)

(** ** Strings *)

Lemma append_nil_r (s : string) : s ++ "" = s.
Proof. induction s as [|c s IH]; simpl; [reflexivity | now rewrite IH]. Qed.

Lemma append_assoc (s t u : string) : (s ++ t) ++ u = s ++ t ++ u.
Proof. induction s as [|c s IH]; simpl; [reflexivity | now rewrite IH]. Qed.

Lemma length_append (s t : string) :
  String.length (s ++ t) = (String.length s + String.length t)%nat.
Proof. induction s as [|c s IH]; simpl; [reflexivity | now rewrite IH]. Qed.

Lemma removeprefix_Some (sep s rest : string) :
  removeprefix sep s = Some rest -> s = sep ++ rest.
Proof.
  revert s; induction sep as [|a sep IH]; intros s H; simpl in *.
  - now inversion H.
  - destruct s as [|b s]; [discriminate|].
    destruct (Ascii.eqb_spec a b) as [->|]; [|discriminate].
    now rewrite (IH _ H).
Qed.

(** A separator that does not start [s ++ t] does not start [s]. *)
Lemma removeprefix_None_shorter (sep s t : string) :
  sep <> "" -> removeprefix sep (s ++ t) = None -> removeprefix sep s = None.
Proof.
  revert s; induction sep as [|a sep IH]; intros s Hne H; [congruence|].
  destruct s as [|b s]; [reflexivity|].
  simpl in *. destruct (Ascii.eqb a b); [|reflexivity].
  destruct sep as [|a' sep]; [discriminate|].
  apply IH; [discriminate | exact H].
Qed.

Lemma contains_false_iff (sub t : string) :
  contains sub t = false <->
  forall p q, t = p ++ q -> removeprefix sub q = None.
Proof.
  induction t as [|c t IH]; simpl.
  - destruct (removeprefix sub "") eqn:E; split; intros H; try discriminate.
    + specialize (H "" "" eq_refl). congruence.
    + intros [|? ?] q Hq; simpl in Hq; [now subst q | discriminate].
    + reflexivity.
  - destruct (removeprefix sub (String c t)) eqn:E; split; intros H; try discriminate.
    + specialize (H "" (String c t) eq_refl). congruence.
    + intros [|c' p] q Hq; simpl in Hq.
      * now subst q.
      * inversion Hq; subst. apply (proj1 IH H p q eq_refl).
    + apply IH. intros p q ->. apply (H (String c p) q). reflexivity.
Qed.

Lemma join_cons (sep x : string) (l : list string) :
  l <> [] -> join sep (x :: l) = x ++ sep ++ join sep l.
Proof. destruct l; [congruence | reflexivity]. Qed.

Lemma split_scan_nonempty (fuel : nat) (sep cur s : string) :
  split_scan fuel sep cur s <> [].
Proof.
  destruct fuel; simpl; [discriminate|].
  destruct (removeprefix sep s); [discriminate|].
  destruct s; [discriminate|].
  revert cur s a. induction fuel; intros; simpl; [discriminate|].
  destruct (removeprefix sep s); [discriminate|].
  destruct s; [discriminate | apply IHfuel].
Qed.

(** Joining the segments with the separator gives the string back. *)
Lemma join_split_scan (sep : string) :
  sep <> "" ->
  forall fuel cur s, (String.length s < fuel)%nat ->
    join sep (split_scan fuel sep cur s) = cur ++ s.
Proof.
  intros Hsep. induction fuel as [|fuel IH]; intros cur s Hlen; [lia|].
  simpl. destruct (removeprefix sep s) as [rest|] eqn:E.
  - apply removeprefix_Some in E. subst s.
    rewrite join_cons by apply split_scan_nonempty.
    rewrite IH; [reflexivity|].
    rewrite length_append in Hlen.
    destruct sep; [congruence | simpl in Hlen; lia].
  - destruct s as [|c s].
    + simpl. now rewrite append_nil_r.
    + rewrite IH by (simpl in Hlen; lia).
      now rewrite append_assoc.
Qed.

Lemma append_snoc_inv (cur p q : string) (c : ascii) :
  cur ++ String c "" = p ++ q -> q <> "" ->
  exists q0, cur = p ++ q0 /\ q = q0 ++ String c "".
Proof.
  revert cur; induction p as [|a p IH]; intros cur H Hq; simpl in H.
  - exists cur. now split.
  - destruct cur as [|b cur]; simpl in H.
    + inversion H as [[Ha Hp]]. destruct p; [simpl in Hp; congruence | discriminate].
    + inversion H as [[Ha Hp]]. destruct (IH _ Hp Hq) as (q0 & -> & ->).
      now exists q0.
Qed.

(** No segment holds the separator. *)
Lemma split_scan_no_separator (sep : string) :
  sep <> "" ->
  forall fuel cur s, (String.length s < fuel)%nat ->
    (forall p q, cur = p ++ q -> q <> "" -> removeprefix sep (q ++ s) = None) ->
    Forall (fun t => contains sep t = false) (split_scan fuel sep cur s).
Proof.
  intros Hsep. induction fuel as [|fuel IH]; intros cur s Hlen Hcur; [lia|].
  assert (Hemit : forall s', (forall p q, cur = p ++ q -> q <> "" ->
                     removeprefix sep (q ++ s') = None) ->
                   contains sep cur = false).
  { intros s' H. apply contains_false_iff. intros p q Hpq.
    destruct q as [|c q].
    - destruct sep; [congruence | reflexivity].
    - apply removeprefix_None_shorter with (t := s'); [assumption|].
      apply (H p); [assumption | discriminate]. }
  simpl. destruct (removeprefix sep s) as [rest|] eqn:E.
  - constructor; [now apply (Hemit s)|].
    apply IH.
    + apply removeprefix_Some in E. subst s. rewrite length_append in Hlen.
      destruct sep; [congruence | simpl in Hlen; lia].
    + intros [|? ?] q Hq Hne; simpl in Hq; [congruence | discriminate].
  - destruct s as [|c s].
    + constructor; [now apply (Hemit "") | constructor].
    + apply IH; [simpl in Hlen; lia|].
      intros p q Hpq Hne.
      destruct (append_snoc_inv _ _ _ _ Hpq Hne) as (q0 & -> & ->).
      rewrite append_assoc. simpl.
      destruct q0 as [|b q0]; [exact E|].
      apply (Hcur p); [reflexivity | discriminate].
Qed.

(** A string without the separator is its own single segment. *)
Lemma split_scan_single (sep : string) :
  forall fuel cur s, (String.length s < fuel)%nat ->
    contains sep s = false -> split_scan fuel sep cur s = [cur ++ s].
Proof.
  induction fuel as [|fuel IH]; intros cur s Hlen Hc; [lia|].
  simpl. destruct s as [|c s]; simpl in Hc.
  - destruct (removeprefix sep ""); [discriminate|]. now rewrite append_nil_r.
  - destruct (removeprefix sep (String c s)); [discriminate|].
    rewrite IH; [|simpl in Hlen; lia | assumption].
    now rewrite append_assoc.
Qed.

(** ** Graphs *)

Lemma has_node_In (G : nx.DiGraph) (n : string) :
  nx.has_node G n = true <-> In n (nx.nodes G).
Proof.
  unfold nx.has_node. rewrite existsb_exists. split.
  - intros (x & Hx & E). apply String.eqb_eq in E. now subst.
  - intros H. exists n. split; [assumption | apply String.eqb_refl].
Qed.

Lemma has_edge_In (G : nx.DiGraph) (u v : string) :
  nx.has_edge G u v = true <-> In (u, v) (nx.edges G).
Proof.
  unfold nx.has_edge. rewrite existsb_exists. split.
  - intros ([x y] & Hx & E). simpl in E. apply andb_true_iff in E.
    destruct E as [E1 E2]. apply String.eqb_eq in E1, E2. now subst.
  - intros H. exists (u, v). split; [assumption|].
    simpl. now rewrite !String.eqb_refl.
Qed.

Lemma add_node_present (n : string) (G : nx.DiGraph) :
  In n (nx.nodes G) -> nx.add_node n G = G.
Proof.
  intros H. unfold nx.add_node. apply has_node_In in H. now rewrite H.
Qed.

Lemma add_node_spec (n : string) (G : nx.DiGraph) :
  nx.edges (nx.add_node n G) = nx.edges G /\
  In n (nx.nodes (nx.add_node n G)) /\
  (In n (nx.nodes G) /\ nx.nodes (nx.add_node n G) = nx.nodes G \/
   ~ In n (nx.nodes G) /\ nx.nodes (nx.add_node n G) = (nx.nodes G ++ [n])%list).
Proof.
  unfold nx.add_node. destruct (nx.has_node G n) eqn:E.
  - apply has_node_In in E. auto.
  - assert (~ In n (nx.nodes G)).
    { intros H. apply has_node_In in H. congruence. }
    simpl. repeat split; [apply in_or_app; right; now left | now right].
Qed.

Lemma add_node_NoDup (n : string) (G : nx.DiGraph) :
  NoDup (nx.nodes G) -> NoDup (nx.nodes (nx.add_node n G)).
Proof.
  intros H. destruct (add_node_spec n G) as (_ & _ & [[_ ->]|[Hn ->]]); [assumption|].
  apply NoDup_rev in H. rewrite <- (rev_involutive (_ ++ _)%list).
  apply NoDup_rev. rewrite rev_app_distr. simpl. constructor; [|assumption].
  now rewrite <- in_rev.
Qed.

Lemma add_node_incl (n : string) (G : nx.DiGraph) (l : list string) :
  incl (nx.nodes G) l -> In n l -> incl (nx.nodes (nx.add_node n G)) l.
Proof.
  intros H Hn. destruct (add_node_spec n G) as (_ & _ & [[_ ->]|[_ ->]]); [assumption|].
  apply incl_app; [assumption|]. intros x [<-|[]]. assumption.
Qed.

Lemma add_node_length (n : string) (G : nx.DiGraph) :
  (List.length (nx.nodes (nx.add_node n G)) <= S (List.length (nx.nodes G)))%nat.
Proof.
  destruct (add_node_spec n G) as (_ & _ & [[_ ->]|[_ ->]]); [lia|].
  rewrite length_app. simpl. lia.
Qed.

Lemma add_edge_nodes (u v : string) (G : nx.DiGraph) :
  nx.nodes (nx.add_edge u v G) = nx.nodes (nx.add_node v (nx.add_node u G)).
Proof. unfold nx.add_edge. now destruct (nx.has_edge G u v). Qed.

Lemma add_edge_spec (u v : string) (G : nx.DiGraph) :
  In (u, v) (nx.edges (nx.add_edge u v G)) /\
  (In (u, v) (nx.edges G) /\ nx.edges (nx.add_edge u v G) = nx.edges G \/
   ~ In (u, v) (nx.edges G) /\
   nx.edges (nx.add_edge u v G) = (nx.edges G ++ [(u, v)])%list).
Proof.
  assert (E0 : nx.edges (nx.add_node v (nx.add_node u G)) = nx.edges G).
  { destruct (add_node_spec v (nx.add_node u G)) as (-> & _).
    now destruct (add_node_spec u G) as (-> & _). }
  unfold nx.add_edge. destruct (nx.has_edge G u v) eqn:E.
  - apply has_edge_In in E. rewrite E0. auto.
  - assert (~ In (u, v) (nx.edges G)).
    { intros H. apply has_edge_In in H. congruence. }
    simpl. rewrite E0. split; [apply in_or_app; right; now left | now right].
Qed.

Lemma add_edge_NoDup (u v : string) (G : nx.DiGraph) :
  NoDup (nx.edges G) -> NoDup (nx.edges (nx.add_edge u v G)).
Proof.
  intros H. destruct (add_edge_spec u v G) as (_ & [[_ ->]|[Hn ->]]); [assumption|].
  apply NoDup_rev in H. rewrite <- (rev_involutive (_ ++ _)%list).
  apply NoDup_rev. rewrite rev_app_distr. simpl. constructor; [|assumption].
  now rewrite <- in_rev.
Qed.

Lemma add_edge_length (u v : string) (G : nx.DiGraph) :
  (List.length (nx.edges (nx.add_edge u v G)) <= S (List.length (nx.edges G)))%nat.
Proof.
  destruct (add_edge_spec u v G) as (_ & [[_ ->]|[_ ->]]); [lia|].
  rewrite length_app. simpl. lia.
Qed.

Lemma chain_step_invariant (processes done rest : list string) (p : string)
    (G : nx.DiGraph) :
  processes = (done ++ p :: rest)%list ->
  chain_invariant done (p :: rest) G ->
  exists G', chain_step processes (List.length done) p G = Ok G' /\
             chain_invariant (done ++ [p]) rest G'.
Proof.
  intros Hp (Hn & He & Hi & Hln & Hle & Hnext).
  assert (Hlen1 : (List.length (nx.nodes (nx.add_node p G))
                   <= S (List.length done))%nat).
  { destruct done as [|d done].
    - pose proof (add_node_length p G). simpl in *. lia.
    - rewrite add_node_present; [simpl in *; lia|].
      apply (Hnext ltac:(discriminate) p rest eq_refl). }
  assert (Hlast : List.length (done ++ [p]) = S (List.length done)).
  { rewrite length_app. simpl. lia. }
  unfold chain_step. subst processes. rewrite length_app. simpl List.length.
  destruct rest as [|q rest].
  - replace (Z.of_nat (List.length done) <? _)%Z with false
      by (symmetry; apply Z.ltb_ge; simpl; lia).
    eexists. split; [reflexivity|].
    destruct (add_node_spec p G) as (Ee & Hin & _).
    repeat split.
    + now apply add_node_NoDup.
    + now rewrite Ee.
    + rewrite app_nil_r. apply add_node_incl; [|apply in_or_app; right; now left].
      intros x Hx. apply Hi in Hx. exact Hx.
    + rewrite Hlast. destruct (done ++ [p])%list; lia.
    + rewrite Ee, Hlast. lia.
    + intros _ ? ? ?. discriminate.
  - replace (Z.of_nat (List.length done) <? _)%Z with true
      by (symmetry; apply Z.ltb_lt; simpl List.length; lia).
    unfold getitem.
    rewrite nth_error_app2, Nat.sub_diag by lia. simpl.
    rewrite nth_error_app2 by lia.
    replace (List.length done + 1 - List.length done)%nat with 1%nat by lia.
    simpl. eexists. split; [reflexivity|].
    destruct (add_node_spec p G) as (Ee & Hin & _).
    set (G1 := nx.add_node p G) in *.
    destruct (add_node_spec q (nx.add_node p G1)) as (_ & Hq & _).
    repeat split.
    + rewrite add_edge_nodes. subst G1. now repeat apply add_node_NoDup.
    + apply add_edge_NoDup. now rewrite Ee.
    + rewrite add_edge_nodes, <- app_assoc. simpl.
      apply add_node_incl; [apply add_node_incl|].
      * apply add_node_incl; [exact Hi | apply in_or_app; right; now left].
      * apply in_or_app; right; now left.
      * apply in_or_app; right; right; now left.
    + rewrite add_edge_nodes, Hlast.
      rewrite (add_node_present p G1) by exact Hin.
      pose proof (add_node_length q G1).
      destruct (done ++ [p])%list eqn:E; [now destruct done|]. lia.
    + pose proof (add_edge_length p q G1). rewrite Ee in H. rewrite Hlast. lia.
    + intros _ ? ? E. inversion E; subst. rewrite add_edge_nodes. exact Hq.
Qed.

Lemma for_enumerate_invariant (processes : list string) :
  forall rest done G,
    processes = (done ++ rest)%list ->
    chain_invariant done rest G ->
    exists G', for_enumerate (chain_step processes) (List.length done) rest G = Ok G' /\
               chain_invariant processes [] G'.
Proof.
  induction rest as [|p rest IH]; intros done G Hp Hinv.
  - rewrite app_nil_r in Hp. subst. now exists G.
  - destruct (chain_step_invariant _ _ _ _ _ Hp Hinv) as (G1 & E1 & Hinv1).
    simpl. rewrite E1. simpl.
    replace (List.length done + 1)%nat with (List.length (done ++ [p]))
      by (rewrite length_app; reflexivity).
    apply IH; [|assumption].
    rewrite <- app_assoc. exact Hp.
Qed.

Lemma build_graph_invariant (processes : list string) :
  exists G, build_graph processes = Ok G /\ chain_invariant processes [] G.
Proof.
  apply (for_enumerate_invariant processes processes [] nx.empty eq_refl).
  repeat split; simpl; try constructor; try lia.
  - intros x [].
  - congruence.
Qed.

(** ** The order of the floats *)

Lemma SFltb_key (x y : spec_float) :
  pd.isna x = false -> pd.isna y = false ->
  (SFltb x y = true <-> pd.key_lt (pd.float_key x) (pd.float_key y)).
Proof.
  intros Hx Hy. unfold SFltb, SFcompare.
  destruct x as [sx|sx| |sx mx ex], y as [sy|sy| |sy my ey];
    try discriminate; try destruct sx; try destruct sy; simpl;
    try change (Pos.compare_cont Eq mx my) with (Pos.compare mx my);
    try destruct (Z.compare_spec ex ey);
    try destruct (Pos.compare_spec mx my);
    simpl; split; intros K; try discriminate; try reflexivity; try lia.
Qed.

Lemma SFltb_strict_weak (a : list spec_float) :
  Forall (fun x => pd.isna x = false) a -> np.strict_weak_on SFltb a.
Proof.
  intros Ha x y z Hx Hy Hz.
  rewrite Forall_forall in Ha.
  pose proof (Ha _ Hx) as Nx. pose proof (Ha _ Hy) as Ny. pose proof (Ha _ Hz) as Nz.
  pose proof (SFltb_key x x Nx Nx) as Kxx.
  pose proof (SFltb_key x y Nx Ny) as Kxy.
  pose proof (SFltb_key y z Ny Nz) as Kyz.
  pose proof (SFltb_key x z Nx Nz) as Kxz.
  destruct (pd.float_key x) as [[a1 b1] c1], (pd.float_key y) as [[a2 b2] c2],
           (pd.float_key z) as [[a3 b3] c3].
  unfold pd.key_lt in *.
  repeat split.
  - destruct (SFltb x x); [|reflexivity]. exfalso.
    pose proof (proj1 Kxx eq_refl). lia.
  - intros H1 H2. apply Kxz. apply Kxy in H1. apply Kyz in H2. lia.
  - intros H1 H2. destruct (SFltb x z); [|reflexivity]. exfalso.
    pose proof (proj1 Kxz eq_refl) as H3.
    assert (N1 : ~ (a1 < a2 \/ a1 = a2 /\ (b1 < b2 \/ b1 = b2 /\ c1 < c2))%Z).
    { intros K. apply Kxy in K. congruence. }
    assert (N2 : ~ (a2 < a3 \/ a2 = a3 /\ (b2 < b3 \/ b2 = b3 /\ c2 < c3))%Z).
    { intros K. apply Kyz in K. congruence. }
    lia.
Qed.

(** ** The order of the integers and of the strings *)

Lemma Z_ltb_strict_weak (a : list Z) : np.strict_weak_on Z.ltb a.
Proof.
  intros x y z _ _ _. repeat split.
  - apply Z.ltb_irrefl.
  - rewrite !Z.ltb_lt. lia.
  - rewrite !Z.ltb_ge. lia.
Qed.

Lemma string_compare_refl (s : string) : String.compare s s = Eq.
Proof.
  induction s as [|c s IH]; simpl; [reflexivity|].
  unfold Ascii.compare. now rewrite N.compare_refl.
Qed.

Lemma string_compare_lt_trans (a b c : string) :
  String.compare a b = Lt -> String.compare b c = Lt -> String.compare a c = Lt.
Proof.
  revert b c; induction a as [|x a IH]; intros [|y b] [|z c]; simpl;
    try discriminate; try reflexivity.
  unfold Ascii.compare.
  destruct (N.compare_spec (N_of_ascii x) (N_of_ascii y)) as [Exy|Lxy|Gxy];
    destruct (N.compare_spec (N_of_ascii y) (N_of_ascii z)) as [Eyz|Lyz|Gyz];
    try discriminate;
    destruct (N.compare_spec (N_of_ascii x) (N_of_ascii z)) as [Exz|Lxz|Gxz];
    intros H1 H2; try reflexivity; try (exfalso; lia).
  now apply (IH b c).
Qed.

Lemma String_ltb_strict_weak (a : list string) : np.strict_weak_on String.ltb a.
Proof.
  intros x y z _ _ _. unfold String.ltb. repeat split.
  - now rewrite string_compare_refl.
  - destruct (String.compare x y) eqn:Exy; try discriminate.
    destruct (String.compare y z) eqn:Eyz; try discriminate.
    now rewrite (string_compare_lt_trans x y z Exy Eyz).
  - intros Hxy Hyz. destruct (String.compare x z) eqn:Exz; try reflexivity.
    exfalso. destruct (String.compare x y) eqn:Exy; try discriminate.
    + apply String.compare_eq_iff in Exy. subst y. now rewrite Exz in Hyz.
    + assert (Eyx : String.compare y x = Lt)
        by (rewrite String.compare_antisym, Exy; reflexivity).
      now rewrite (string_compare_lt_trans y x z Eyx Exz) in Hyz.
Qed.

(** ** Sorting by insertion *)

Lemma insert_perm (before : nat -> nat -> bool) (i : nat) (l : list nat) :
  Permutation (np.insert before i l) (i :: l).
Proof.
  induction l as [|j l IH]; simpl; [reflexivity|].
  destruct (before i j); [reflexivity|].
  rewrite IH. apply perm_swap.
Qed.

Lemma insertion_perm (before : nat -> nat -> bool) (l : list nat) :
  Permutation (fold_right (np.insert before) [] l) l.
Proof.
  induction l as [|i l IH]; simpl; [reflexivity|].
  rewrite insert_perm. now constructor.
Qed.

Lemma insert_sorted (R : nat -> nat -> Prop) (before : nat -> nat -> bool)
    (i : nat) (l : list nat) :
  (forall j, In j l -> before i j = true -> R i j) ->
  (forall j, In j l -> before i j = false -> R j i) ->
  (forall j k, In j l -> In k l -> R i j -> R j k -> R i k) ->
  StronglySorted R l -> StronglySorted R (np.insert before i l).
Proof.
  intros Ht Hf Htr Hs. induction Hs as [|j l Hs IH Hj]; simpl.
  - repeat constructor.
  - rewrite Forall_forall in Hj. destruct (before i j) eqn:E.
    + assert (Rij : R i j) by (apply Ht; [now left | assumption]).
      constructor; [now constructor; [|apply Forall_forall]|].
      constructor; [assumption|]. apply Forall_forall. intros k Hk.
      apply (Htr j k); auto using in_eq, in_cons.
    + constructor.
      * apply IH; intros; [apply Ht | apply Hf | apply (Htr j0 k)];
          auto using in_cons.
      * apply Forall_forall. intros k Hk.
        apply (Permutation_in _ (insert_perm before i l)) in Hk.
        destruct Hk as [<-|Hk]; [apply Hf; [now left | assumption] | now apply Hj].
Qed.

Lemma insertion_sorted (R : nat -> nat -> Prop) (before : nat -> nat -> bool)
    (l : list nat) :
  (forall i j, In i l -> In j l -> i < j -> before i j = true -> R i j) ->
  (forall i j, In i l -> In j l -> i < j -> before i j = false -> R j i) ->
  (forall i j k, In i l -> In j l -> In k l -> R i j -> R j k -> R i k) ->
  StronglySorted lt l ->
  StronglySorted R (fold_right (np.insert before) [] l).
Proof.
  intros Ht Hf Htr Hs. induction Hs as [|i l Hs IH Hi]; simpl; [constructor|].
  rewrite Forall_forall in Hi.
  assert (Hin : forall j, In j (fold_right (np.insert before) [] l) -> In j l).
  { intros j. apply Permutation_in, insertion_perm. }
  apply insert_sorted.
  - intros j Hj. apply Ht; auto using in_eq, in_cons.
  - intros j Hj. apply Hf; auto using in_eq, in_cons.
  - intros j k Hj Hk. apply Htr; auto using in_eq, in_cons.
  - apply IH; intros; [apply Ht | apply Hf | apply (Htr i0 j k)];
      auto using in_cons.
Qed.

Lemma seq_sorted (len start : nat) : StronglySorted lt (seq start len).
Proof.
  revert start; induction len as [|len IH]; intros start; simpl; constructor.
  - apply IH.
  - apply Forall_forall. intros j Hj. apply in_seq in Hj. lia.
Qed.

Lemma nth_error_seq_In {A : Type} (a : list A) (i : nat) :
  In i (seq 0 (List.length a)) -> exists x, nth_error a i = Some x /\ In x a.
Proof.
  intros H. apply in_seq in H.
  destruct (nth_error a i) as [x|] eqn:E.
  - exists x. split; [reflexivity | eapply nth_error_In; eassumption].
  - apply nth_error_None in E. lia.
Qed.

Section StrictWeak.

Context {A : Type} (lt : A -> A -> bool) (a : list A).
Hypothesis order : np.strict_weak_on lt a.

Lemma lt_asym (x y : A) : In x a -> In y a -> lt x y = true -> lt y x = false.
Proof.
  intros Hx Hy H. destruct (lt y x) eqn:E; [|reflexivity].
  destruct (order x y x Hx Hy Hx) as (Hirr & Htr & _).
  rewrite (Htr H E) in Hirr. discriminate.
Qed.

Lemma ascending_trans (i j k : nat) :
  In j (seq 0 (List.length a)) ->
  np.ascending lt a i j -> np.ascending lt a j k -> np.ascending lt a i k.
Proof.
  intros Hj Hij Hjk x z Hx Hz.
  destruct (nth_error_seq_In a j Hj) as (y & Ey & Hy).
  apply nth_error_In in Hx as Hx'. apply nth_error_In in Hz as Hz'.
  destruct (order z y x Hz' Hy Hx') as (_ & _ & Hneg).
  apply Hneg; [apply (Hjk y z) | apply (Hij x y)]; assumption.
Qed.

Lemma ascending_stable_trans (i j k : nat) :
  In j (seq 0 (List.length a)) ->
  np.ascending_stable lt a i j -> np.ascending_stable lt a j k ->
  np.ascending_stable lt a i k.
Proof.
  intros Hj Hij Hjk x z Hx Hz.
  destruct (nth_error_seq_In a j Hj) as (y & Ey & Hy).
  apply nth_error_In in Hx as Hx'. apply nth_error_In in Hz as Hz'.
  specialize (Hij x y Hx Ey). specialize (Hjk y z Ey Hz).
  destruct (lt x z) eqn:Exz; [now left | right].
  destruct (order x y z Hx' Hy Hz') as (_ & Htr & _).
  destruct (order x z y Hx' Hz' Hy) as (_ & _ & Hneg1).
  destruct (order y x z Hy Hx' Hz') as (_ & _ & Hneg2).
  destruct (order z y x Hz' Hy Hx') as (_ & _ & Hneg3).
  destruct Hij as [Hij|[Hij Lij]], Hjk as [Hjk|[Hjk Ljk]].
  - specialize (Htr Hij Hjk). congruence.
  - specialize (Hneg1 Exz Hjk). congruence.
  - specialize (Hneg2 Hij Exz). congruence.
  - split; [now apply Hneg3 | lia].
Qed.

Lemma argsort_stable_ascending_stable :
  StronglySorted (np.ascending_stable lt a) (np.argsort_stable lt a).
Proof.
  apply insertion_sorted; [| | |apply seq_sorted].
  - intros i j _ _ Hlt E x y Hx Hy. right. split; [|assumption].
    unfold np.lt_at in E. rewrite Hx, Hy in E. now apply negb_true_iff in E.
  - intros i j _ _ _ E x y Hx Hy. left.
    unfold np.lt_at in E. rewrite Hx, Hy in E. now apply negb_false_iff in E.
  - intros i j k _ Hj _. now apply ascending_stable_trans.
Qed.

Lemma ascending_stable_ascending (i j : nat) :
  np.ascending_stable lt a i j -> np.ascending lt a i j.
Proof.
  intros H x y Hx Hy. destruct (H x y Hx Hy) as [H1|[H1 _]]; [|assumption].
  apply lt_asym; eauto using nth_error_In.
Qed.

Lemma argsort_stable_ascending :
  StronglySorted (np.ascending lt a) (np.argsort_stable lt a).
Proof.
  pose proof argsort_stable_ascending_stable as H.
  induction H; constructor; [assumption|].
  eapply Forall_impl; [|eassumption]. apply ascending_stable_ascending.
Qed.

Lemma argsort_reversing_ascending :
  StronglySorted (np.ascending lt a) (np.argsort_reversing lt a).
Proof.
  apply insertion_sorted; [| | |apply seq_sorted].
  - intros i j _ _ _ E x y Hx Hy.
    unfold np.lt_at in E. rewrite Hx, Hy in E.
    apply lt_asym; eauto using nth_error_In.
  - intros i j _ _ _ E x y Hx Hy.
    unfold np.lt_at in E. now rewrite Hy, Hx in E.
  - intros i j k _ Hj _. now apply ascending_trans.
Qed.

End StrictWeak.

Lemma all_stable_lawful : np.lawful np.all_stable.
Proof.
  intros A lt k a. simpl. repeat split.
  - apply insertion_perm.
  - intros H. now apply argsort_stable_ascending.
  - intros H _. now apply argsort_stable_ascending_stable.
Qed.

Lemma stable_on_request_lawful : np.lawful np.stable_on_request.
Proof.
  intros A lt k a. simpl. repeat split.
  - destruct (np.is_stable k); apply insertion_perm.
  - intros H. destruct (np.is_stable k);
      [now apply argsort_stable_ascending | now apply argsort_reversing_ascending].
  - intros H E. rewrite E. now apply argsort_stable_ascending_stable.
Qed.

(** ** Indexing *)

Lemma take_Ok {A : Type} (a : list A) (ix : list nat) :
  Forall (fun i => i < List.length a) ix ->
  exists l, np.take a ix = Ok l /\ map (nth_error a) ix = map Some l.
Proof.
  unfold np.take. induction 1 as [|i ix Hi _ (l & El & Hl)]; simpl.
  - now exists [].
  - destruct (nth_error a i) as [x|] eqn:E.
    + exists (x :: l). rewrite El. simpl. now rewrite Hl.
    + apply nth_error_None in E. lia.
Qed.

Lemma map_Some_inj {A : Type} (l l' : list A) :
  map Some l = map Some l' -> l = l'.
Proof.
  revert l'; induction l as [|x l IH]; intros [|y l'] H; simpl in H;
    try discriminate; [reflexivity|].
  inversion H. f_equal. now apply IH.
Qed.

Lemma map_nth_error_seq {A : Type} (l : list A) :
  map (nth_error l) (seq 0 (List.length l)) = map Some l.
Proof.
  induction l as [|x l IH]; simpl; [reflexivity|].
  now rewrite <- seq_shift, map_map, <- IH.
Qed.

(** Reading [a] at a rearrangement of its positions rearranges [a]. *)
Lemma take_permutation {A : Type} (a l : list A) (ix : list nat) :
  Permutation ix (seq 0 (List.length a)) ->
  map (nth_error a) ix = map Some l -> Permutation l a.
Proof.
  intros Hp Hl.
  apply (Permutation_map (nth_error a)) in Hp.
  rewrite Hl, map_nth_error_seq in Hp.
  apply Permutation_sym, Permutation_map_inv in Hp.
  destruct Hp as (l' & E & Hp). apply map_Some_inj in E. subst l'.
  now symmetry.
Qed.

Lemma map_eq_nth_error {A B C : Type} (f : A -> C) (g : B -> C)
    (l1 : list A) (l2 : list B) (k : nat) (x : A) :
  map f l1 = map g l2 -> nth_error l1 k = Some x ->
  exists y, nth_error l2 k = Some y /\ f x = g y.
Proof.
  revert l2 k; induction l1 as [|x1 l1 IH]; intros [|y2 l2] k H Hk;
    simpl in H; try discriminate.
  - destruct k; discriminate.
  - inversion H. destruct k as [|k]; simpl in *.
    + inversion Hk; subst. now exists y2.
    + now apply IH.
Qed.

(** The positions a boolean mask keeps, counted from [start]. *)
Lemma bool_index_cons {A B : Type} (f : A -> bool) (x : A) (items : list A)
    (y : B) (l : list B) :
  np.bool_index (map f (x :: items)) (y :: l) =
  if f x then y :: np.bool_index (map f items) l
  else np.bool_index (map f items) l.
Proof. unfold np.bool_index. simpl. now destruct (f x). Qed.

Lemma bool_index_filter {A : Type} (f : A -> bool) (items : list A) :
  np.bool_index (map f items) items = filter f items.
Proof.
  induction items as [|x items IH]; [reflexivity|].
  rewrite bool_index_cons. simpl. destruct (f x); now rewrite IH.
Qed.

Lemma bool_index_positions {A : Type} (f : A -> bool) (items : list A) (start : nat) :
  let ix := np.bool_index (map f items) (seq start (List.length items)) in
  map (fun i => nth_error items (i - start)) ix = map Some (filter f items) /\
  Forall (fun i => start <= i < start + List.length items) ix /\
  StronglySorted lt ix.
Proof.
  revert start; induction items as [|x items IH]; intros start; cbv zeta.
  - simpl. repeat split; constructor.
  - destruct (IH (S start)) as (Hm & Hr & Hs).
    assert (Hm' : map (fun i => nth_error (x :: items) (i - start))
                    (np.bool_index (map f items) (seq (S start) (List.length items)))
                  = map Some (filter f items)).
    { rewrite <- Hm. apply map_ext_in. intros i Hi.
      rewrite Forall_forall in Hr. specialize (Hr i Hi).
      replace (i - start) with (S (i - S start)) by lia. reflexivity. }
    assert (Hr' : Forall (fun i => start <= i < start + S (List.length items))
                    (np.bool_index (map f items) (seq (S start) (List.length items)))).
    { eapply Forall_impl; [|exact Hr]. simpl. intros; lia. }
    change (seq start (List.length (x :: items)))
      with (start :: seq (S start) (List.length items)).
    rewrite bool_index_cons. simpl filter. simpl List.length.
    destruct (f x).
    + simpl map. rewrite Nat.sub_diag. simpl nth_error. rewrite Hm'. repeat split.
      * constructor; [lia | assumption].
      * constructor; [assumption|].
        eapply Forall_impl; [|exact Hr]. simpl. intros; lia.
    + now repeat split.
Qed.

Lemma bool_index_partition {A : Type} (f : A -> bool) (items : list A) (start : nat) :
  Permutation
    (np.bool_index (map (fun x => negb (f x)) items) (seq start (List.length items)) ++
     np.bool_index (map f items) (seq start (List.length items)))
    (seq start (List.length items)).
Proof.
  revert start; induction items as [|x items IH]; intros start; [reflexivity|].
  change (seq start (List.length (x :: items)))
    with (start :: seq (S start) (List.length items)).
  rewrite !bool_index_cons. destruct (f x); simpl.
  - rewrite <- Permutation_middle. constructor. apply IH.
  - constructor. apply IH.
Qed.

(** ** Sorted lists *)

Lemma StronglySorted_impl_In {A : Type} (R R' : A -> A -> Prop) (l : list A) :
  (forall x y, In x l -> In y l -> R x y -> R' x y) ->
  StronglySorted R l -> StronglySorted R' l.
Proof.
  intros H Hs. induction Hs as [|x l Hs IH Hx]; constructor.
  - apply IH. intros; apply H; auto using in_cons.
  - rewrite Forall_forall in *. intros y Hy.
    apply H; auto using in_eq, in_cons.
Qed.

Lemma StronglySorted_app {A : Type} (R : A -> A -> Prop) (l1 l2 : list A) :
  StronglySorted R l1 -> StronglySorted R l2 ->
  (forall x y, In x l1 -> In y l2 -> R x y) ->
  StronglySorted R (l1 ++ l2).
Proof.
  intros H1 H2 H. induction H1 as [|x l1 H1 IH Hx]; simpl; [assumption|].
  constructor.
  - apply IH. intros; apply H; auto using in_cons.
  - apply Forall_app. split; [assumption|].
    apply Forall_forall. intros y Hy. apply H; auto using in_eq.
Qed.

Lemma StronglySorted_rev {A : Type} (R : A -> A -> Prop) (l : list A) :
  StronglySorted R l -> StronglySorted (fun x y => R y x) (rev l).
Proof.
  induction 1 as [|x l Hs IH Hx]; simpl; [constructor|].
  apply StronglySorted_app; [assumption | repeat constructor|].
  intros y z Hy [<-|[]]. rewrite Forall_forall in Hx.
  apply Hx. now apply in_rev.
Qed.

(** A sorted list of positions read through [g] is sorted by what [g]
    makes of the order. *)
Lemma StronglySorted_through {A B : Type} (R : A -> A -> Prop) (R' : B -> B -> Prop)
    (g : A -> option B) (p : list A) (l : list B) :
  map g p = map Some l ->
  (forall k1 k2 x y, In k1 p -> In k2 p -> g k1 = Some x -> g k2 = Some y ->
     R k1 k2 -> R' x y) ->
  StronglySorted R p -> StronglySorted R' l.
Proof.
  intros Hm H Hs. revert l Hm. induction Hs as [|k p Hs IH Hk]; intros l Hm.
  - destruct l; [constructor | discriminate].
  - destruct l as [|x l]; [discriminate|]. simpl in Hm. inversion Hm as [[Ex El]].
    constructor.
    + apply IH; [|assumption].
      intros k1 k2 x1 y1 ? ? ? ? ?. apply (H k1 k2); auto using in_cons.
    + apply Forall_forall. intros y Hy.
      apply In_nth_error in Hy. destruct Hy as (n & Hn).
      destruct (map_eq_nth_error Some g l p n y (eq_sym El) Hn) as (k2 & Ek2 & E).
      rewrite Forall_forall in Hk.
      apply (H k k2); eauto using in_eq, in_cons, nth_error_In.
Qed.

Lemma StronglySorted_nth_error {A : Type} (R : A -> A -> Prop) (l : list A) :
  StronglySorted R l ->
  forall k1 k2 x y, k1 < k2 ->
    nth_error l k1 = Some x -> nth_error l k2 = Some y -> R x y.
Proof.
  induction 1 as [|z l Hs IH Hz]; intros k1 k2 x y Hk H1 H2.
  - destruct k1; discriminate.
  - destruct k2 as [|k2]; [lia|]. simpl in H2. destruct k1 as [|k1]; simpl in H1.
    + inversion H1; subst. rewrite Forall_forall in Hz.
      eapply Hz, nth_error_In; eassumption.
    + apply (IH k1 k2); [lia | assumption | assumption].
Qed.

(** ** [nargsort], descending *)

Section Nargsort.

Context {A : Type} (s : np.sorting) (lt : A -> A -> bool) (isna : A -> bool).
Context (items : list A) (kind : np.kind).

Hypothesis law : np.lawful s.

Let X := filter (fun x => negb (isna x)) items.
Let I := np.bool_index (map (fun x => negb (isna x)) items)
           (seq 0 (List.length items)).
Let N := np.bool_index (map isna items) (seq 0 (List.length items)).

Lemma nargsort_descending_unfold :
  pd.nargsort s lt isna items kind false =
  (indexer <- np.take (rev I) (np.argsort s A lt kind (rev X)) ;;
   Ok (rev indexer ++ N)%list).
Proof.
  unfold pd.nargsort, np.nonzero, I, N, X.
  now rewrite map_map, length_map, bool_index_filter.
Qed.

Lemma kept_positions :
  map (nth_error items) I = map Some X /\
  Forall (fun i => i < List.length items) I /\
  StronglySorted Peano.lt I.
Proof.
  destruct (bool_index_positions (fun x => negb (isna x)) items 0)
    as (Hm & Hr & Hs). fold I in Hm, Hr, Hs. fold X in Hm.
  repeat split; [|eapply Forall_impl; [|exact Hr]; simpl; intros; lia | exact Hs].
  rewrite <- Hm. apply map_ext. intros i. now rewrite Nat.sub_0_r.
Qed.

Lemma kept_not_na (i : nat) (x : A) :
  In i I -> nth_error items i = Some x -> isna x = false /\ In x X.
Proof.
  intros Hi Hx. destruct kept_positions as (Hm & _ & _).
  apply In_nth_error in Hi. destruct Hi as (k & Hk).
  destruct (map_eq_nth_error _ _ _ _ _ _ Hm Hk) as (y & Hy & E).
  rewrite Hx in E. inversion E; subst y.
  apply nth_error_In in Hy. split; [|exact Hy].
  apply filter_In in Hy. now apply negb_true_iff.
Qed.

Lemma missing_positions :
  StronglySorted Peano.lt N /\
  forall i x, In i N -> nth_error items i = Some x -> isna x = true.
Proof.
  destruct (bool_index_positions isna items 0) as (Hm & _ & Hs).
  fold N in Hm, Hs. split; [exact Hs|].
  intros i x Hi Hx. apply In_nth_error in Hi. destruct Hi as (k & Hk).
  destruct (map_eq_nth_error _ _ _ _ _ _ Hm Hk) as (y & Hy & E).
  rewrite Nat.sub_0_r, Hx in E. inversion E; subst y.
  apply nth_error_In, filter_In in Hy. tauto.
Qed.

Lemma order_rev : np.strict_weak_on lt X -> np.strict_weak_on lt (rev X).
Proof.
  intros order x y z Hx Hy Hz. apply order; now apply in_rev.
Qed.

(** The positions [nargsort] returns for a descending order: every
    position once, no value smaller than a later one, the missing values
    last; and with a stable kind, equal values in the order of their
    positions. *)
Lemma nargsort_descending :
  exists ix,
    pd.nargsort s lt isna items kind false = Ok ix /\
    Permutation ix (seq 0 (List.length items)) /\
    (np.strict_weak_on lt X ->
     StronglySorted (pd.descending lt isna items) ix) /\
    (np.strict_weak_on lt X -> np.is_stable kind = true ->
     StronglySorted (pd.descending_stable lt isna items) ix).
Proof.
  destruct kept_positions as (Hm & Hr & Hs).
  destruct missing_positions as (HNs & HNna).
  destruct (law A lt kind (rev X)) as (Hperm & Hasc & Hstab).
  set (p := np.argsort s A lt kind (rev X)) in *.
  assert (Hlen : List.length (rev X) = List.length (rev I)).
  { rewrite !length_rev. apply (f_equal (@List.length _)) in Hm.
    now rewrite !length_map in Hm. }
  assert (Hmr : map (nth_error items) (rev I) = map Some (rev X)).
  { now rewrite !map_rev, Hm. }
  rewrite Hlen in Hperm.
  destruct (take_Ok (rev I) p) as (J & EJ & HJ).
  { apply Forall_forall. intros k Hk.
    apply (Permutation_in _ Hperm), in_seq in Hk. lia. }
  pose proof (take_permutation _ _ _ Hperm HJ) as HJperm.
  assert (HJI : forall i, In i (rev J) -> In i I).
  { intros i Hi. apply in_rev. apply (Permutation_in _ HJperm). now apply in_rev. }
  assert (Hread : forall k i x, nth_error (rev I) k = Some i ->
                    nth_error items i = Some x -> nth_error (rev X) k = Some x).
  { intros k i x Hk Hx.
    destruct (map_eq_nth_error _ _ _ _ _ _ Hmr Hk) as (y & Hy & E).
    rewrite Hx in E. now inversion E; subst. }
  exists (rev J ++ N)%list. rewrite nargsort_descending_unfold. fold p.
  rewrite EJ. simpl. split; [reflexivity|]. split; [|split].
  - rewrite <- (bool_index_partition isna items 0). fold I N.
    apply Permutation_app_tail.
    rewrite <- (Permutation_rev J), HJperm. symmetry. apply Permutation_rev.
  - intros order. apply StronglySorted_app.
    + assert (S1 : StronglySorted
                     (fun i j => forall x y, nth_error items i = Some x ->
                        nth_error items j = Some y ->
                        isna x = false /\ isna y = false /\ lt y x = false) J).
      { apply (StronglySorted_through (np.ascending lt (rev X)) _
                 (nth_error (rev I)) p J HJ); [|apply Hasc, order_rev, order].
        intros k1 k2 i j _ _ Hi Hj Hk x y Hx Hy.
        assert (In i I /\ In j I) as [Ii Ij]
            by (split; apply in_rev; eapply nth_error_In; eassumption).
        split; [exact (proj1 (kept_not_na i x Ii Hx))|].
        split; [exact (proj1 (kept_not_na j y Ij Hy))|].
        apply (Hk x y); eapply Hread; eassumption. }
      apply StronglySorted_rev in S1.
      eapply StronglySorted_impl_In; [|exact S1].
      intros i j _ _ H x y Hx Hy. left.
      destruct (H y x Hy Hx) as (? & ? & ?). auto.
    + apply (StronglySorted_impl_In Peano.lt); [|exact HNs].
      intros i j Hi Hj Hij x y Hx Hy. right; right. eauto.
    + intros i j Hi Hj x y Hx Hy. right; left.
      split; [exact (proj1 (kept_not_na i x (HJI i Hi) Hx)) | eauto].
  - intros order Hk. specialize (Hstab (order_rev order) Hk).
    apply StronglySorted_app.
    + assert (S1 : StronglySorted
                     (fun i j => forall x y, nth_error items i = Some x ->
                        nth_error items j = Some y ->
                        isna x = false /\ isna y = false /\
                        (lt x y = true \/ (lt y x = false /\ j < i))) J).
      { apply (StronglySorted_through (np.ascending_stable lt (rev X)) _
                 (nth_error (rev I)) p J HJ); [|exact Hstab].
        intros k1 k2 i j _ _ Hi Hj Hkk x y Hx Hy.
        assert (In i I /\ In j I) as [Ii Ij]
            by (split; apply in_rev; eapply nth_error_In; eassumption).
        split; [exact (proj1 (kept_not_na i x Ii Hx))|].
        split; [exact (proj1 (kept_not_na j y Ij Hy))|].
        destruct (Hkk x y) as [Hl|[Hl Hlt]];
          [eapply Hread; eassumption .. | now left | right].
        split; [assumption|].
        apply (StronglySorted_nth_error _ _ (StronglySorted_rev _ _ Hs)
                 k1 k2 i j Hlt Hi Hj). }
      apply StronglySorted_rev in S1.
      eapply StronglySorted_impl_In; [|exact S1].
      intros i j _ _ H x y Hx Hy. left.
      destruct (H y x Hy Hx) as (? & ? & ?). auto.
    + apply (StronglySorted_impl_In Peano.lt); [|exact HNs].
      intros i j Hi Hj Hij x y Hx Hy. right; right. eauto.
    + intros i j Hi Hj x y Hx Hy. right; left.
      split; [exact (proj1 (kept_not_na i x (HJI i Hi) Hx)) | eauto].
Qed.

End Nargsort.

(** ** Frames: [take], [head], [sort_values] *)

Lemma mapM_Ok {A B : Type} (f : A -> result B) (l : list A) :
  Forall (fun x => exists y, f x = Ok y) l -> exists l', mapM f l = Ok l'.
Proof.
  induction 1 as [|x l (y & Ey) _ (l' & El)]; simpl.
  - now exists [].
  - rewrite Ey, El. simpl. now eexists.
Qed.

Lemma mapM_map {A B : Type} (f g : A -> result B) (h : B -> B) (l : list A)
    (l' : list B) :
  (forall x y, In x l -> f x = Ok y -> g x = Ok (h y)) ->
  mapM f l = Ok l' -> mapM g l = Ok (map h l').
Proof.
  revert l'; induction l as [|x l IH]; intros l' H E; simpl in *.
  - now inversion E.
  - destruct (f x) as [y|] eqn:Ey; [|discriminate]. simpl in E.
    destruct (mapM f l) as [ys|] eqn:Eys; [|discriminate]. simpl in E.
    inversion E; subst l'.
    rewrite (H x y (or_introl eq_refl) Ey). simpl.
    rewrite (IH ys); [reflexivity | intros; apply H; auto | reflexivity].
Qed.

Lemma np_take_firstn {A : Type} (a l : list A) (ix : list nat) (n : nat) :
  np.take a ix = Ok l -> np.take a (firstn n ix) = Ok (firstn n l).
Proof.
  unfold np.take. revert n l; induction ix as [|i ix IH]; intros n l E; simpl in E.
  - inversion E. now destruct n.
  - destruct (nth_error a i) as [x|] eqn:Ex; [|discriminate]. simpl in E.
    destruct (mapM _ ix) as [xs|] eqn:Exs; [|discriminate]. simpl in E.
    inversion E; subst l. destruct n as [|n]; [reflexivity|].
    simpl. rewrite Ex. simpl. now rewrite (IH n xs eq_refl).
Qed.

Lemma take_column_firstn (c c' : pd.column) (ix : list nat) (n : nat) :
  pd.take_column c ix = Ok c' ->
  pd.take_column c (firstn n ix) = Ok (pd.head_column c' n).
Proof.
  destruct c as [a|a|a]; simpl; intros E;
    destruct (np.take a ix) as [l|] eqn:El; try discriminate;
    simpl in E; inversion E; subst c';
    now rewrite (np_take_firstn _ _ _ n El).
Qed.

(** The first [n] rows of the rows at the positions [ix] are the rows at
    the first [n] positions of [ix]. *)
Lemma take_head (df sorted : pd.DataFrame) (ix : list nat) (n : nat) :
  pd.take df ix = Ok sorted ->
  pd.take df (firstn n ix) = Ok (pd.head sorted n).
Proof.
  unfold pd.take, pd.head. intros E.
  destruct (pd.take_column (pd.index df) ix) as [i'|] eqn:Ei; [|discriminate].
  simpl in E.
  destruct (mapM _ (pd.columns df)) as [cs|] eqn:Ec; [|discriminate].
  simpl in E. inversion E; subst sorted. simpl.
  rewrite (take_column_firstn _ _ _ n Ei). simpl.
  erewrite mapM_map with (h := fun kc => (fst kc, pd.head_column (snd kc) n));
    [reflexivity | | exact Ec].
  intros [k c] [k' c'] _ H. simpl in *.
  destruct (pd.take_column c ix) as [c1|] eqn:E1; [|discriminate].
  simpl in H. inversion H; subst.
  now rewrite (take_column_firstn _ _ _ n E1).
Qed.

Lemma np_take_spec {A : Type} (a l : list A) (ix : list nat) :
  np.take a ix = Ok l -> map (nth_error a) ix = map Some l.
Proof.
  unfold np.take. revert l; induction ix as [|i ix IH]; intros l E; simpl in E.
  - now inversion E.
  - destruct (nth_error a i) as [x|] eqn:Ex; [|discriminate]. simpl in E.
    destruct (mapM _ ix) as [xs|] eqn:Exs; [|discriminate]. simpl in E.
    inversion E; subst l. simpl. now rewrite Ex, (IH xs eq_refl).
Qed.

Lemma np_take_length {A : Type} (a l : list A) (ix : list nat) :
  np.take a ix = Ok l -> List.length l = List.length ix.
Proof.
  intros E. apply np_take_spec in E.
  apply (f_equal (@List.length _)) in E. now rewrite !length_map in E.
Qed.

Lemma take_column_size (c c' : pd.column) (ix : list nat) :
  pd.take_column c ix = Ok c' -> pd.size c' = List.length ix.
Proof.
  destruct c as [a|a|a]; simpl; intros E;
    destruct (np.take a ix) as [l|] eqn:El; try discriminate;
    simpl in E; inversion E; subst c'; simpl; eapply np_take_length; eassumption.
Qed.

(** The rows at some positions: as many rows as positions, under the
    labels of the frame, every column as long as the row labels. *)
Lemma take_shape (df sorted : pd.DataFrame) (ix : list nat) :
  pd.take df ix = Ok sorted ->
  pd.len sorted = List.length ix /\
  pd.rectangular sorted /\
  map fst (pd.columns sorted) = map fst (pd.columns df).
Proof.
  unfold pd.take. intros E.
  destruct (pd.take_column (pd.index df) ix) as [i'|] eqn:Ei; [|discriminate].
  simpl in E.
  destruct (mapM _ (pd.columns df)) as [cs|] eqn:Ec; [|discriminate].
  simpl in E. inversion E; subst sorted. clear E.
  assert (H : Forall (fun c => pd.size (snd c) = List.length ix) cs /\
              map fst cs = map fst (pd.columns df)).
  { revert cs Ec. induction (pd.columns df) as [|[k c] cols IH]; intros cs Ec;
      simpl in Ec.
    - inversion Ec. now split.
    - destruct (pd.take_column c ix) as [c'|] eqn:E1; [|discriminate].
      simpl in Ec.
      destruct (mapM _ cols) as [cs'|] eqn:E2; [|discriminate]. simpl in Ec.
      inversion Ec; subst cs. destruct (IH cs' eq_refl) as (Hr & Hl).
      split; [constructor; [exact (take_column_size _ _ _ E1) | exact Hr]|].
      simpl. now rewrite Hl. }
  destruct H as (Hr & Hl).
  unfold pd.rectangular, pd.len. simpl.
  pose proof (take_column_size _ _ _ Ei) as Hi.
  repeat split; [exact Hi | | exact Hl].
  eapply Forall_impl; [|exact Hr]. intros c Hc. simpl. congruence.
Qed.

Lemma head_column_size (c : pd.column) (n : nat) :
  pd.size (pd.head_column c n) = Nat.min n (pd.size c).
Proof. destruct c; simpl; apply length_firstn. Qed.

(** [head(n)] keeps the labels, shows [min n (len df)] rows and keeps a
    rectangular frame rectangular. *)
Lemma head_shape (df : pd.DataFrame) (n : nat) :
  pd.len (pd.head df n) = Nat.min n (pd.len df) /\
  map fst (pd.columns (pd.head df n)) = map fst (pd.columns df) /\
  (pd.rectangular df -> pd.rectangular (pd.head df n)).
Proof.
  unfold pd.len, pd.rectangular, pd.head. simpl. repeat split.
  - apply head_column_size.
  - rewrite map_map. reflexivity.
  - intros Hr. apply Forall_map. eapply Forall_impl; [|exact Hr].
    intros [k c] Hc. simpl in *. unfold pd.len in *. simpl.
    now rewrite !head_column_size, Hc.
Qed.

(** The labels of a frame *)

Lemma count_ext (key : string) (cols cols' : list (string * pd.column)) :
  map fst cols = map fst cols' -> pd.count key cols = pd.count key cols'.
Proof.
  revert cols'; induction cols as [|[k c] cols IH]; intros [|[k' c'] cols'] H;
    try discriminate; [reflexivity|].
  simpl in *. inversion H; subst k'. now rewrite (IH cols').
Qed.

Lemma labels_distinct_ext (cols cols' : list (string * pd.column)) :
  map fst cols = map fst cols' ->
  pd.labels_distinct cols = pd.labels_distinct cols'.
Proof.
  revert cols'; induction cols as [|[k c] cols IH]; intros [|[k' c'] cols'] H;
    try discriminate; [reflexivity|].
  simpl in *. inversion H; subst k'.
  now rewrite (IH cols'), (count_ext k cols cols').
Qed.

Lemma take_is_unique (df sorted : pd.DataFrame) (ix : list nat) :
  pd.take df ix = Ok sorted -> pd.is_unique sorted = pd.is_unique df.
Proof.
  intros E. destruct (take_shape df sorted ix E) as (_ & _ & H).
  now apply labels_distinct_ext.
Qed.

Lemma head_is_unique (df : pd.DataFrame) (n : nat) :
  pd.is_unique (pd.head df n) = pd.is_unique df.
Proof.
  destruct (head_shape df n) as (_ & H & _). now apply labels_distinct_ext.
Qed.

Lemma count_lookup (key : string) (cols : list (string * pd.column)) :
  pd.count key cols = 0 <-> pd.lookup key cols = None.
Proof.
  induction cols as [|[k c] cols IH]; simpl; [tauto|].
  destruct (String.eqb key k); simpl; [split; discriminate | exact IH].
Qed.

(** With distinct labels, a label that heads a column heads one. *)
Lemma count_unique (df : pd.DataFrame) (key : string) (c : pd.column) :
  pd.is_unique df = true -> pd.lookup key (pd.columns df) = Some c ->
  pd.count key (pd.columns df) = 1.
Proof.
  unfold pd.is_unique. induction (pd.columns df) as [|[k c0] cols IH]; simpl;
    [discriminate|].
  intros Hu Hl. apply andb_true_iff in Hu. destruct Hu as (Hk & Hu).
  apply Nat.eqb_eq in Hk.
  destruct (String.eqb_spec key k) as [->|Hne].
  - now rewrite Hk.
  - now apply IH.
Qed.

Lemma take_column_Ok (c : pd.column) (ix : list nat) :
  Forall (fun i => i < pd.size c) ix -> exists c', pd.take_column c ix = Ok c'.
Proof.
  destruct c as [a|a|a]; simpl; intros H;
    destruct (take_Ok a ix H) as (l & -> & _); simpl; now eexists.
Qed.

Lemma take_frame_Ok (df : pd.DataFrame) (ix : list nat) :
  pd.rectangular df -> Forall (fun i => i < pd.len df) ix ->
  exists df', pd.take df ix = Ok df'.
Proof.
  intros Hr Hix. unfold pd.take.
  destruct (take_column_Ok (pd.index df) ix Hix) as (i' & ->). simpl.
  destruct (mapM_Ok (fun kc => c' <- pd.take_column (snd kc) ix ;; Ok (fst kc, c'))
              (pd.columns df)) as (cs & ->); [|simpl; now eexists].
  eapply Forall_impl; [|exact Hr]. intros [k c] Hc. simpl in *.
  destruct (take_column_Ok c ix) as (c' & ->); [now rewrite Hc|].
  simpl. now eexists.
Qed.

Lemma lookup_In (key : string) (cols : list (string * pd.column)) (c : pd.column) :
  pd.lookup key cols = Some c -> In (key, c) cols.
Proof.
  induction cols as [|[k c0] cols IH]; simpl; [discriminate|].
  destruct (String.eqb_spec key k) as [->|]; intros H.
  - inversion H. now left.
  - right. now apply IH.
Qed.

Lemma lookup_size (df : pd.DataFrame) (key : string) (c : pd.column) :
  pd.rectangular df -> pd.lookup key (pd.columns df) = Some c ->
  pd.size c = pd.len df.
Proof.
  intros Hr H. apply lookup_In in H. unfold pd.rectangular in Hr.
  rewrite Forall_forall in Hr. apply (Hr _ H).
Qed.

Lemma not_na_strict_weak (scores : list spec_float) :
  np.strict_weak_on SFltb (filter (fun x => negb (pd.isna x)) scores).
Proof.
  apply SFltb_strict_weak, Forall_forall. intros x Hx.
  apply filter_In in Hx. now apply negb_true_iff.
Qed.

(** Any column can be sorted by: the positions list every row once and
    read the column in descending order, and with a stable kind equal
    values stay in the order of their positions. *)
Lemma nargsort_column_descending (s : np.sorting) (c : pd.column)
    (kind : np.kind) :
  np.lawful s ->
  exists ix, pd.nargsort_column s c kind false = Ok ix /\
             Permutation ix (seq 0 (pd.size c)) /\
             StronglySorted (pd.column_descending c) ix /\
             (np.is_stable kind = true ->
              StronglySorted (pd.column_descending_stable c) ix).
Proof.
  intros law. destruct c as [a|a|a]; simpl.
  - destruct (nargsort_descending s SFltb pd.isna a kind law)
      as (ix & E & P & Hd & Hs).
    pose proof (not_na_strict_weak a) as order.
    exists ix. repeat split; auto.
  - destruct (nargsort_descending s Z.ltb (fun _ => false) a kind law)
      as (ix & E & P & Hd & Hs).
    pose proof (Z_ltb_strict_weak (filter (fun x => negb false) a)) as order.
    exists ix. repeat split; auto.
  - destruct (nargsort_descending s String.ltb (fun _ => false) a kind law)
      as (ix & E & P & Hd & Hs).
    pose proof (String_ltb_strict_weak (filter (fun x => negb false) a))
      as order.
    exists ix. repeat split; auto.
Qed.

Lemma permutation_in_range (ix : list nat) (n : nat) :
  Permutation ix (seq 0 n) -> Forall (fun i => i < n) ix.
Proof.
  intros P. apply Forall_forall. intros i Hi.
  apply (Permutation_in _ P), in_seq in Hi. lia.
Qed.

(** [sort_values], descending and not in place, by a label that heads one
    column: the call returns the rows at a rearrangement of the positions
    that reads the column in descending order, and leaves the frame. *)
Lemma sort_values_by_one (s : np.sorting) (df : pd.DataFrame) (key : string)
    (kind : np.kind) (c : pd.column) :
  np.lawful s -> pd.rectangular df ->
  pd.count key (pd.columns df) = 1 ->
  pd.lookup key (pd.columns df) = Some c ->
  exists ix sorted,
    pd.sort_values s df key false false kind = Ok (Some sorted, df) /\
    pd.take df ix = Ok sorted /\
    Permutation ix (seq 0 (pd.len df)) /\
    StronglySorted (pd.column_descending c) ix /\
    (np.is_stable kind = true ->
     StronglySorted (pd.column_descending_stable c) ix).
Proof.
  intros law Hr Hn Ec. unfold pd.sort_values.
  rewrite Ec, Hn. cbn [Nat.ltb Nat.leb].
  destruct (nargsort_column_descending s c kind law) as (ix & -> & P & Hd & Hs).
  rewrite (lookup_size df key c Hr Ec) in P.
  destruct (take_frame_Ok df ix Hr (permutation_in_range _ _ P)) as (sorted & E).
  exists ix, sorted. simpl. rewrite E. simpl. auto.
Qed.

(** The same on a frame with distinct labels. *)
Lemma sort_values_descending (s : np.sorting) (df : pd.DataFrame) (key : string)
    (kind : np.kind) (c : pd.column) :
  np.lawful s -> pd.rectangular df -> pd.is_unique df = true ->
  pd.lookup key (pd.columns df) = Some c ->
  exists ix sorted,
    pd.sort_values s df key false false kind = Ok (Some sorted, df) /\
    pd.take df ix = Ok sorted /\
    Permutation ix (seq 0 (pd.len df)) /\
    StronglySorted (pd.column_descending c) ix /\
    (np.is_stable kind = true ->
     StronglySorted (pd.column_descending_stable c) ix).
Proof.
  intros law Hr Hu Ec.
  apply sort_values_by_one; try assumption. now apply (count_unique df key c).
Qed.

Lemma sort_values_Ok (s : np.sorting) (df : pd.DataFrame) (key : string)
    (kind : np.kind) :
  np.lawful s -> pd.rectangular df -> pd.is_unique df = true ->
  pd.has_column df key = true ->
  exists ix sorted,
    pd.sort_values s df key false false kind = Ok (Some sorted, df) /\
    pd.take df ix = Ok sorted /\
    Permutation ix (seq 0 (pd.len df)).
Proof.
  intros law Hr Hu Hc. unfold pd.has_column in Hc.
  destruct (pd.lookup key (pd.columns df)) as [c|] eqn:Ec; [|discriminate].
  destruct (sort_values_descending s df key kind c law Hr Hu Ec)
    as (ix & sorted & E & Et & P & _).
  now exists ix, sorted.
Qed.

(** A label that heads two columns cannot be sorted by. *)
Lemma sort_values_ambiguous (s : np.sorting) (df : pd.DataFrame) (key : string)
    (ascending inplace : bool) (kind : np.kind) :
  (1 < pd.count key (pd.columns df))%nat ->
  pd.sort_values s df key ascending inplace kind =
  Raise (ValueError ("The column label '" ++ key ++ "' is not unique.")).
Proof.
  intros H. unfold pd.sort_values.
  destruct (pd.lookup key (pd.columns df)) eqn:El.
  - apply Nat.ltb_lt in H. now rewrite H.
  - apply count_lookup in El. lia.
Qed.

(** ** Columns of the frames the script makes *)

Lemma lookup_head (df : pd.DataFrame) (key : string) (n : nat) :
  pd.lookup key (pd.columns (pd.head df n)) =
  option_map (fun c => pd.head_column c n) (pd.lookup key (pd.columns df)).
Proof.
  unfold pd.head. simpl. induction (pd.columns df) as [|[k c] cols IH]; simpl.
  - reflexivity.
  - destruct (String.eqb key k); [reflexivity | exact IH].
Qed.

Lemma lookup_drop_other (key other : string) (cols : list (string * pd.column)) :
  key <> other -> pd.lookup key (pd.drop other cols) = pd.lookup key cols.
Proof.
  intros Hne. induction cols as [|[k c] cols IH]; simpl; [reflexivity|].
  destruct (String.eqb_spec other k) as [->|].
  - rewrite IH. destruct (String.eqb_spec key k); [congruence | reflexivity].
  - simpl. now rewrite IH.
Qed.

(** The rows at some positions have the columns of the frame. *)
Lemma lookup_take (df sorted : pd.DataFrame) (ix : list nat) (key : string) :
  pd.take df ix = Ok sorted ->
  match pd.lookup key (pd.columns df) with
  | Some c => exists c', pd.take_column c ix = Ok c' /\
                         pd.lookup key (pd.columns sorted) = Some c'
  | None => pd.lookup key (pd.columns sorted) = None
  end.
Proof.
  unfold pd.take. intros E.
  destruct (pd.take_column (pd.index df) ix) as [i'|]; [|discriminate].
  simpl in E.
  destruct (mapM _ (pd.columns df)) as [cs|] eqn:Ec; [|discriminate].
  simpl in E. inversion E; subst sorted. simpl. clear E.
  revert cs Ec. induction (pd.columns df) as [|[k c] cols IH]; intros cs Ec;
    simpl in Ec.
  - inversion Ec. reflexivity.
  - destruct (pd.take_column c ix) as [c'|] eqn:E1; [|discriminate]. simpl in Ec.
    destruct (mapM _ cols) as [cs'|] eqn:E2; [|discriminate]. simpl in Ec.
    inversion Ec; subst cs. simpl.
    destruct (String.eqb key k); [now exists c' | now apply IH].
Qed.



(** ** The stages of the script *)

Lemma results_table_shows (w : world) (results sorted : pd.DataFrame) :
  pd.sort_values (numpy w) results "threat_score" false false np.quicksort
    = Ok (Some sorted, results) ->
  pd.is_unique sorted = true ->
  results_table w results =
  ([st.Subheader text.ranked_heading;
    st.Write text.ranked_blurb;
    st.Dataframe (pd.head sorted 50)], Done results).
Proof.
  intros E Hu. unfold results_table. rewrite E.
  cbn [lift show and_then pd.head_of List.app]. unfold dataframe.
  rewrite head_is_unique, Hu. reflexivity.
Qed.

(** The table stage on a frame with distinct labels and the column: the
    table shows the first 50 of the rows in descending order, and the
    stage hands back the frame it was given. *)
Lemma results_table_sorted (w : world) (results : pd.DataFrame) (c : pd.column) :
  np.lawful (numpy w) -> pd.rectangular results -> pd.is_unique results = true ->
  pd.lookup "threat_score" (pd.columns results) = Some c ->
  exists ix sorted,
    pd.sort_values (numpy w) results "threat_score" false false np.quicksort
      = Ok (Some sorted, results) /\
    pd.take results ix = Ok sorted /\
    Permutation ix (seq 0 (pd.len results)) /\
    StronglySorted (pd.column_descending c) ix /\
    results_table w results =
      ([st.Subheader text.ranked_heading;
        st.Write text.ranked_blurb;
        st.Dataframe (pd.head sorted 50)], Done results).
Proof.
  intros law Hr Hu Hs.
  destruct (sort_values_descending (numpy w) results "threat_score" np.quicksort
              c law Hr Hu Hs) as (ix & sorted & E & Et & P & Hd & _).
  exists ix, sorted. repeat split; try assumption.
  apply results_table_shows; [exact E|].
  now rewrite (take_is_unique results sorted ix Et).
Qed.


Lemma results_table_aborts (w : world) (results : pd.DataFrame) :
  pd.has_column results "threat_score" = false ->
  results_table w results =
  ([st.Subheader text.ranked_heading;
    st.Write text.ranked_blurb],
   Raised (KeyError "threat_score")).
Proof.
  unfold pd.has_column, results_table, pd.sort_values. intros H.
  destruct (pd.lookup "threat_score" (pd.columns results)); [discriminate|].
  reflexivity.
Qed.

Lemma threat_score_plot_shows (w : world) (results sorted : pd.DataFrame)
    (series : pd.Series) :
  pd.sort_values (numpy w) results "threat_score" false false np.quicksort
    = Ok (Some sorted, results) ->
  (by_path <- pd.set_index (pd.head sorted 15) "path" ;;
   pd.getitem by_path "threat_score") = Ok series ->
  threat_score_plot w results =
  ([st.Subheader text.top15_heading; st.BarChart series], Done results).
Proof.
  intros E Es. unfold threat_score_plot, top15. rewrite E. simpl.
  destruct (pd.set_index (pd.head sorted 15) "path") as [by_path|];
    [|discriminate].
  simpl in *. rewrite Es. reflexivity.
Qed.

Lemma threat_score_plot_warns (w : world) (results sorted : pd.DataFrame) :
  pd.sort_values (numpy w) results "threat_score" false false np.quicksort
    = Ok (Some sorted, results) ->
  pd.has_column sorted "path" = false ->
  threat_score_plot w results =
  ([st.Subheader text.top15_heading;
    st.Warning text.chart_warning],
   Done results).
Proof.
  intros E Hp. unfold threat_score_plot, top15. rewrite E. simpl.
  unfold pd.set_index. rewrite lookup_head.
  unfold pd.has_column in Hp.
  destruct (pd.lookup "path" (pd.columns sorted)); [discriminate|].
  reflexivity.
Qed.

Lemma process_graph_skipped (w : world) (s : st.session) (results : pd.DataFrame) :
  pd.has_column results "path" = false ->
  process_graph w s results =
  ([st.Subheader text.graph_heading;
    st.Write text.graph_blurb;
    st.Info text.path_not_found],
   Done tt).
Proof. intros H. unfold process_graph. rewrite H. reflexivity. Qed.

(** The button's action ends normally whatever happens in it. *)
Lemma render_action_done (w : world) (selected_path : option pd.scalar) :
  exists out, render_action w selected_path = (out, Done tt).
Proof.
  unfold render_action, render_graph, try_except.
  destruct (import_networkx_pyplot w) as [[]|e]; simpl; [|eauto].
  destruct (split_selected selected_path delimiter) as [processes|e]; simpl;
    [|eauto].
  destruct (build_graph processes) as [G|e]; simpl; [|eauto].
  destruct (subplots w (10, 5)%Z) as [[]|e]; simpl; [|eauto].
  destruct (spring_layout w G 42) as [pos|e]; simpl; [|eauto].
  destruct (draw w G pos true 2500 10) as [[]|e]; simpl; [|eauto].
  destruct (pyplot w _) as [[]|e]; simpl; eauto.
Qed.

(** The button's action when everything before the rendering returns:
    the figure when [st.pyplot] renders it, the error when it raises. *)
Lemma render_action_rendering (w : world) (p : string) (tokens : list string)
    (G : nx.DiGraph) (pos : nx.layout) :
  split delimiter p = Ok tokens ->
  build_graph tokens = Ok G ->
  import_networkx_pyplot w = Ok tt ->
  subplots w (10, 5)%Z = Ok tt ->
  spring_layout w G 42 = Ok pos ->
  draw w G pos true 2500 10 = Ok tt ->
  render_action w (Some (pd.PyStr p)) =
  match pyplot w (st.mkFigure (10, 5)%Z G pos true 2500 10) with
  | Ok _ => ([st.Pyplot (st.mkFigure (10, 5)%Z G pos true 2500 10)], Done tt)
  | Raise e => ([st.Error text.render_failed; st.Code e], Done tt)
  end.
Proof.
  intros Es Eg Hi Hf Hl Hd. unfold render_action, render_graph, split_selected.
  rewrite Hi, Es. cbn [lift and_then List.app]. rewrite Eg.
  cbn [lift and_then List.app]. rewrite Hf. cbn [lift and_then List.app].
  rewrite Hl. cbn [lift and_then List.app]. rewrite Hd.
  cbn [lift and_then List.app].
  destruct (pyplot w _) as [[]|e]; reflexivity.
Qed.

Lemma process_graph_selector (w : world) (s : st.session) (results : pd.DataFrame)
    (paths : pd.column) :
  pd.lookup "path" (pd.columns results) = Some paths ->
  exists out,
    process_graph w s results =
    (st.Subheader text.graph_heading
     :: st.Write text.graph_blurb
     :: st.Selectbox text.select_label
          (pd.tolist (pd.mkSeries (pd.index results) paths))
     :: st.Button text.render_label :: out, Done tt).
Proof.
  intros Hp. unfold process_graph, pd.has_column, pd.getitem. rewrite Hp.
  simpl. destruct (st.button_clicked s).
  - destruct (render_action_done w
                (nth_error (pd.tolist (pd.mkSeries (pd.index results) paths))
                           (st.selectbox_index s))) as (out & ->).
    now exists out.
  - now exists [].
Qed.

(** The selector stage always goes on. *)
Lemma process_graph_done (w : world) (s : st.session) (results : pd.DataFrame) :
  exists out, process_graph w s results = (out, Done tt).
Proof.
  destruct (pd.lookup "path" (pd.columns results)) as [paths|] eqn:Hp.
  - destruct (process_graph_selector w s results paths Hp) as (out & ->). eauto.
  - rewrite process_graph_skipped; [eauto|].
    unfold pd.has_column. now rewrite Hp.
Qed.

(** * The claims *)

(** ** C1: the ranked table *)




(** With a stable sort kind the rows with equal scores would stay in
    input order: the order C1 speaks of is the order of [kind="stable"]. *)
Lemma sort_values_stable_kind (s : np.sorting) (results : pd.DataFrame)
    (scores : pd.column) :
  np.lawful s ->
  pd.rectangular results ->
  pd.is_unique results = true ->
  pd.lookup "threat_score" (pd.columns results) = Some scores ->
  exists ix sorted,
    pd.sort_values s results "threat_score" false false np.stable
      = Ok (Some sorted, results) /\
    pd.take results ix = Ok sorted /\
    Permutation ix (seq 0 (pd.len results)) /\
    StronglySorted (pd.column_descending_stable scores) ix.
Proof.
  intros law Hr Hu Hs.
  destruct (sort_values_descending s results "threat_score" np.stable
              scores law Hr Hu Hs) as (ix & sorted & E & Et & P & _ & Hst).
  exists ix, sorted. auto.
Qed.

(** numpy's contract for the default kind leaves the order of equal
    scores open: the two routines above both keep it, and they rank the
    twenty chains of [tied_results] in input order and in reverse input
    order.  Which order numpy's own [quicksort] gives on a table is a
    matter of its implementation. *)
Example contract_leaves_ties_open :
  np.lawful np.all_stable /\ np.lawful np.stable_on_request /\
  (r <- pd.sort_values np.all_stable tied_results "threat_score"
          false false np.quicksort ;;
   ranked <- pd.head_of (fst r) 50 ;;
   paths <- pd.getitem ranked "path" ;;
   Ok (pd.tolist paths)) = Ok (map pd.PyStr tied_paths) /\
  (r <- pd.sort_values np.stable_on_request tied_results "threat_score"
          false false np.quicksort ;;
   ranked <- pd.head_of (fst r) 50 ;;
   paths <- pd.getitem ranked "path" ;;
   Ok (pd.tolist paths)) = Ok (map pd.PyStr (rev tied_paths)).
Proof.
  split; [apply all_stable_lawful|]. split; [apply stable_on_request_lawful|].
  split; reflexivity.
Qed.

(** ** C2: tokenizing a path *)

(** C2, as the code has it.  Tokenizing is [str.split] on the delimiter
    and nothing more: for every path string it succeeds with at least one
    segment; the segments, in their order and joined by the delimiter,
    are the path string; no segment holds the delimiter.  Segments are
    neither trimmed nor checked for emptiness, and no path string is
    refused. *)
Theorem C2_split_delimiter (s : string) :
  exists tokens,
    split delimiter s = Ok tokens /\
    tokens <> [] /\
    join delimiter tokens = s /\
    Forall (fun t => contains delimiter t = false) tokens.
Proof.
  assert (Hd : delimiter <> "") by discriminate.
  exists (split_scan (S (String.length s)) delimiter "" s). repeat split.
  - apply split_scan_nonempty.
  - rewrite join_split_scan; [reflexivity | exact Hd | lia].
  - apply split_scan_no_separator; [exact Hd | lia |].
    intros [|? ?] q Hq Hne; simpl in Hq; [congruence | discriminate].
Qed.

(** C2 as stated fails: the empty path, a path of spaces and a path with
    two delimiters in a row are tokenized without any error, into an
    empty token, an untrimmed token of spaces, and a sequence with an
    empty token in the middle. *)
Lemma C2_empty_and_blank_tokens :
  split delimiter "" = Ok [""] /\
  split delimiter "   " = Ok ["   "] /\
  split delimiter "A →  → B" = Ok ["A"; ""; "B"] /\
  split delimiter " A → B " = Ok [" A"; "B "] /\
  trimmed " A" = false /\
  ~ (forall s tokens, split delimiter s = Ok tokens ->
       Forall (fun t => t <> "" /\ trimmed t = true) tokens) /\
  ~ (exists e, split delimiter "" = Raise e).
Proof.
  repeat split; try reflexivity.
  - intros H. specialize (H "" [""] eq_refl).
    inversion H as [|? ? [K _] _]. now apply K.
  - intros [e K]. discriminate K.
Qed.

(** ** C3: a missing column *)

(** C3, what the code does when [threat_score] is missing.  The sort for
    the ranked table (line 77) is outside any [try]: the run ends there
    with [KeyError].  The raw preview shown before stays, but no warning
    is shown and neither the chart nor the path selector is reached,
    whether or not the result set has a [path] column. *)
Theorem C3_missing_threat_score_aborts (w : world) (s : st.session)
    (file : string) (data results : pd.DataFrame) :
  st.uploaded_file s = Some file ->
  read_csv w file = Ok data ->
  analyze_paths w data = Ok results ->
  pd.has_column results "threat_score" = false ->
  app w s =
  ([st.Title text.title;
    st.Write text.intro;
    st.FileUploader text.upload_label;
    st.Subheader text.raw_preview;
    st.Dataframe (pd.head data 50);
    st.Subheader text.running;
    st.Success text.completed;
    st.Subheader text.ranked_heading;
    st.Write text.ranked_blurb],
   Raised (KeyError "threat_score")).
Proof.
  intros Hf Hd Ha Hc. unfold app. rewrite Hf, Hd. simpl. rewrite Ha. simpl.
  unfold display. rewrite (results_table_aborts w results Hc). reflexivity.
Qed.

Lemma C3_missing_threat_score_aborts_witness :
  app (sample_world np.stable_on_request paths_without_scores) sample_session =
  ([st.Title text.title;
    st.Write text.intro;
    st.FileUploader text.upload_label;
    st.Subheader text.raw_preview;
    st.Dataframe (pd.head paths_without_scores 50);
    st.Subheader text.running;
    st.Success text.completed;
    st.Subheader text.ranked_heading;
    st.Write text.ranked_blurb],
   Raised (KeyError "threat_score")).
Proof.
  apply (C3_missing_threat_score_aborts
           (sample_world np.stable_on_request paths_without_scores)
           sample_session "log.csv" paths_without_scores paths_without_scores);
    reflexivity.
Defined.

(** The chart's series of a sorted frame with both columns: the paths
    and the scores of its first 15 rows. *)
Lemma chart_of_sorted (sorted : pd.DataFrame) (paths scores : pd.column) :
  pd.lookup "path" (pd.columns sorted) = Some paths ->
  pd.lookup "threat_score" (pd.columns sorted) = Some scores ->
  (by_path <- pd.set_index (pd.head sorted 15) "path" ;;
   pd.getitem by_path "threat_score") =
  Ok (pd.mkSeries (pd.head_column paths 15) (pd.head_column scores 15)).
Proof.
  intros Lp Lt.
  unfold pd.set_index. rewrite lookup_head, Lp. cbn [option_map bind].
  unfold pd.getitem. cbn [pd.columns pd.index].
  rewrite lookup_drop_other by discriminate.
  now rewrite lookup_head, Lt.
Qed.

(** ** C4: the chart and the table *)



(** ** C5: the chain A, B, C *)

(** C5.  The path string of the chain A, B, C is split into the tokens
    A, B, C, and the graph built from them has the 3 nodes A, B, C and
    the 2 edges A to B and B to C. *)
Theorem C5_chain_of_three :
  split delimiter "A → B → C" = Ok ["A"; "B"; "C"] /\
  build_graph ["A"; "B"; "C"] =
    Ok (nx.mkDiGraph ["A"; "B"; "C"] [("A", "B"); ("B", "C")]) /\
  (tokens <- split delimiter "A → B → C" ;;
   G <- build_graph tokens ;;
   Ok (nx.number_of_nodes G, nx.number_of_edges G)) = Ok (3, 2)%nat.
Proof. repeat split; reflexivity. Qed.

(** ** C6: nothing twice, nothing beyond the tokens *)

(** C6.  For every token sequence the graph is built without error; it
    holds no node and no edge twice, its nodes are tokens, and it has at
    most as many nodes and at most as many edges as there are tokens.
    Adding a node the graph has leaves its nodes as they are, adding an
    edge it has leaves its edges as they are.  The tokens A, A give the
    one node A and the one edge from A to A. *)
Theorem C6_graph_deduplicates_and_is_bounded (processes : list string) :
  (exists G,
     build_graph processes = Ok G /\
     NoDup (nx.nodes G) /\
     NoDup (nx.edges G) /\
     incl (nx.nodes G) processes /\
     (nx.number_of_nodes G <= List.length processes)%nat /\
     (nx.number_of_edges G <= List.length processes)%nat) /\
  (forall n G,
     nx.nodes (nx.add_node n G) =
     if nx.has_node G n then nx.nodes G else (nx.nodes G ++ [n])%list) /\
  (forall u v G,
     nx.edges (nx.add_edge u v G) =
     if nx.has_edge G u v then nx.edges G else (nx.edges G ++ [(u, v)])%list) /\
  build_graph ["A"; "A"] = Ok (nx.mkDiGraph ["A"] [("A", "A")]).
Proof.
  repeat split.
  - destruct (build_graph_invariant processes)
      as (G & E & Hn & He & Hi & Hln & Hle & _).
    exists G. rewrite app_nil_r in Hi. unfold nx.number_of_nodes, nx.number_of_edges.
    repeat split; try assumption.
    destruct processes; simpl in *; lia.
  - intros n G. unfold nx.add_node. now destruct (nx.has_node G n).
  - intros u v G. destruct (add_edge_spec u v G) as (_ & [[H ->]|[H ->]]).
    + apply has_edge_In in H. now rewrite H.
    + destruct (nx.has_edge G u v) eqn:E; [|reflexivity].
      apply has_edge_In in E. contradiction.
Qed.

(** ** C7: a path of one token *)




(** ** C8: no [path] column *)

(** C8, as the code has it.  For every rectangular result set with
    distinct column labels that has a [threat_score] column and no [path]
    column, the ranked table is shown, the chart gives way to its
    warning, the notice that the column [path] was not found is shown in
    place of the selector and the button, and the run goes on to its
    end. *)
Theorem C8_missing_path_notice (w : world) (s : st.session)
    (results : pd.DataFrame) :
  np.lawful (numpy w) ->
  pd.rectangular results ->
  pd.is_unique results = true ->
  pd.has_column results "threat_score" = true ->
  pd.has_column results "path" = false ->
  exists view,
    display w s results =
    ([st.Success text.completed;
      st.Subheader text.ranked_heading;
      st.Write text.ranked_blurb;
      st.Dataframe view;
      st.Subheader text.top15_heading;
      st.Warning text.chart_warning;
      st.Subheader text.graph_heading;
      st.Write text.graph_blurb;
      st.Info text.path_not_found;
      st.Markdown text.rule;
      st.Write text.footer],
     Done tt).
Proof.
  intros law Hr Hu Ht Hp.
  destruct (sort_values_Ok (numpy w) results "threat_score" np.quicksort
              law Hr Hu Ht) as (ix & sorted & E & Et & _).
  assert (Hps : pd.has_column sorted "path" = false).
  { pose proof (lookup_take results sorted ix "path" Et) as L.
    unfold pd.has_column in *.
    destruct (pd.lookup "path" (pd.columns results)); [discriminate|].
    now rewrite L. }
  assert (Hus : pd.is_unique sorted = true)
    by now rewrite (take_is_unique results sorted ix Et).
  exists (pd.head sorted 50). unfold display.
  rewrite (results_table_shows w results sorted E Hus). simpl.
  rewrite (threat_score_plot_warns w results sorted E Hps). simpl.
  rewrite (process_graph_skipped w s results Hp). reflexivity.
Qed.

Lemma C8_missing_path_notice_witness :
  exists view,
    display (sample_world np.stable_on_request scores_without_paths)
      sample_session scores_without_paths =
    ([st.Success text.completed;
      st.Subheader text.ranked_heading;
      st.Write text.ranked_blurb;
      st.Dataframe view;
      st.Subheader text.top15_heading;
      st.Warning text.chart_warning;
      st.Subheader text.graph_heading;
      st.Write text.graph_blurb;
      st.Info text.path_not_found;
      st.Markdown text.rule;
      st.Write text.footer],
     Done tt).
Proof.
  apply (C8_missing_path_notice
           (sample_world np.stable_on_request scores_without_paths)
           sample_session scores_without_paths).
  - apply stable_on_request_lawful.
  - repeat constructor.
  - reflexivity.
  - reflexivity.
  - reflexivity.
Defined.

(** C8 as stated fails: a result set without [path] and without
    [threat_score] ends the run at the sort for the ranked table, before
    the table and before the notice. *)
Lemma C8_neither_column_aborts :
  ~ (forall (w : world) (s : st.session) (results : pd.DataFrame),
       np.lawful (numpy w) ->
       pd.rectangular results ->
       pd.has_column results "path" = false ->
       exists out view,
         display w s results = (out, Done tt) /\
         In (st.Info text.path_not_found) out /\
         In (st.Dataframe view) out).
Proof.
  intros H.
  destruct (H (sample_world np.stable_on_request neither_column) sample_session
              neither_column stable_on_request_lawful
              ltac:(repeat constructor) eq_refl) as (out & view & E & _).
  vm_compute in E. discriminate E.
Qed.

(** ** C10: the frame of the pipeline stays as it is *)



(** On [ranked_results] the selector lists the paths in the order of the
    pipeline, the duplicate included, while the table ranks them. *)
Example selector_order_is_not_the_ranking :
  pd.getitem ranked_results "path" =
    Ok (pd.mkSeries (pd.Int64 [0; 1; 2; 3]%Z)
          (pd.Object ["explorer.exe → cmd.exe"; "winword.exe → cmd.exe";
                      "explorer.exe → cmd.exe"; "services.exe"])) /\
  (r <- pd.sort_values np.stable_on_request ranked_results "threat_score"
          false false np.quicksort ;;
   ranked <- pd.head_of (fst r) 50 ;;
   pd.getitem ranked "path") =
    Ok (pd.mkSeries (pd.Int64 [1; 3; 0; 2]%Z)
          (pd.Object ["winword.exe → cmd.exe"; "services.exe";
                      "explorer.exe → cmd.exe"; "explorer.exe → cmd.exe"])).
Proof. split; reflexivity. Qed.

(** * Further properties of the script *)

(** ** The start of the run (lines 27-61) *)

(** X1.  Without an uploaded file the run shows the title, the introduction,
    the uploader and the request to upload, and stops: nothing is read
    and the pipeline is not run. *)
Theorem no_upload_stops (w : world) (s : st.session) :
  st.uploaded_file s = None ->
  app w s =
  ([st.Title text.title; st.Write text.intro;
    st.FileUploader text.upload_label; st.Info text.upload_first], Stopped).
Proof. intros H. unfold app. now rewrite H. Qed.

Lemma no_upload_stops_witness :
  app (sample_world np.stable_on_request ranked_results) no_upload =
  ([st.Title text.title; st.Write text.intro;
    st.FileUploader text.upload_label; st.Info text.upload_first], Stopped).
Proof.
  apply (no_upload_stops (sample_world np.stable_on_request ranked_results)
           no_upload).
  reflexivity.
Defined.

(** X2.  When the CSV reader raises, the run shows the error with the
    traceback and stops before the raw preview: the pipeline is not
    run, whatever it would have done. *)
Theorem unreadable_csv_stops (w : world) (s : st.session) (file : string)
    (e : exn) :
  st.uploaded_file s = Some file ->
  read_csv w file = Raise e ->
  app w s =
  ([st.Title text.title; st.Write text.intro;
    st.FileUploader text.upload_label;
    st.Error text.csv_failed; st.Code e], Stopped).
Proof. intros Hf Hr. unfold app. rewrite Hf, Hr. reflexivity. Qed.

Lemma unreadable_csv_stops_witness :
  app unreadable_world sample_session =
  ([st.Title text.title; st.Write text.intro;
    st.FileUploader text.upload_label;
    st.Error text.csv_failed;
    st.Code (ValueError "No columns to parse from file")], Stopped).
Proof.
  apply (unreadable_csv_stops unreadable_world sample_session "log.csv");
    reflexivity.
Defined.

(** X3.  When the pipeline raises, the run shows the raw preview, then the
    error with the traceback, and stops: neither the ranked table nor
    the chart nor the selector is shown. *)
Theorem failing_pipeline_stops (w : world) (s : st.session) (file : string)
    (data : pd.DataFrame) (e : exn) :
  st.uploaded_file s = Some file ->
  read_csv w file = Ok data ->
  analyze_paths w data = Raise e ->
  app w s =
  ([st.Title text.title; st.Write text.intro;
    st.FileUploader text.upload_label;
    st.Subheader text.raw_preview; st.Dataframe (pd.head data 50);
    st.Subheader text.running;
    st.Error text.pipeline_failed; st.Code e], Stopped).
Proof.
  intros Hf Hr Ha. unfold app. rewrite Hf, Hr. simpl. rewrite Ha. reflexivity.
Qed.

Lemma failing_pipeline_stops_witness :
  app failing_pipeline_world sample_session =
  ([st.Title text.title; st.Write text.intro;
    st.FileUploader text.upload_label;
    st.Subheader text.raw_preview; st.Dataframe (pd.head ranked_results 50);
    st.Subheader text.running;
    st.Error text.pipeline_failed; st.Code (KeyError "Image")], Stopped).
Proof.
  apply (failing_pipeline_stops failing_pipeline_world sample_session "log.csv"
           ranked_results);
    reflexivity.
Defined.

(** ** How a run can end *)

(** The table stage hands back the frame it was given, or raises. *)
Lemma results_table_outcome (w : world) (results : pd.DataFrame) :
  (exists out, results_table w results = (out, Done results)) \/
  (exists out e, results_table w results = (out, Raised e)).
Proof.
  unfold results_table, pd.sort_values, dataframe.
  destruct (pd.lookup "threat_score" (pd.columns results)) as [c|]; simpl; eauto.
  destruct (1 <? pd.count "threat_score" (pd.columns results))%nat; simpl; eauto.
  destruct (pd.nargsort_column (numpy w) c np.quicksort false) as [ix|e];
    simpl; eauto.
  destruct (pd.take results ix) as [sorted|e]; simpl; eauto.
  destruct (pd.is_unique (pd.head sorted 50)); simpl; eauto.
Qed.

(** The chart stage always goes on, with the frame it was given. *)
Lemma threat_score_plot_done (w : world) (results : pd.DataFrame) :
  exists out, threat_score_plot w results = (out, Done results).
Proof.
  unfold threat_score_plot, top15, pd.sort_values.
  destruct (pd.lookup "threat_score" (pd.columns results)) as [c|]; simpl; eauto.
  destruct (1 <? pd.count "threat_score" (pd.columns results))%nat; simpl; eauto.
  destruct (pd.nargsort_column (numpy w) c np.quicksort false) as [ix|e];
    simpl; eauto.
  destruct (pd.take results ix) as [sorted|e]; simpl; eauto.
  destruct (pd.set_index (pd.head sorted 15) "path") as [by_path|e]; simpl; eauto.
  destruct (pd.getitem by_path "threat_score") as [scores|e]; simpl; eauto.
Qed.

(** What is shown after the pipeline ends as the table stage ends. *)
Lemma display_outcome (w : world) (s : st.session) (results : pd.DataFrame) :
  (exists out out', results_table w results = (out, Done results) /\
                    display w s results = (out', Done tt)) \/
  (exists out e, results_table w results = (out, Raised e) /\
                 display w s results = (st.Success text.completed :: out, Raised e)).
Proof.
  unfold display.
  destruct (results_table_outcome w results) as [(out & E)|(out & e & E)];
    rewrite E; simpl.
  - left. destruct (threat_score_plot_done w results) as (out1 & ->). simpl.
    destruct (process_graph_done w s results) as (out2 & ->). simpl. eauto.
  - right. eauto.
Qed.

(** Under a lawful sort and on a rectangular frame with distinct labels
    the table stage raises only for want of the column. *)
Lemma results_table_raises (w : world) (results : pd.DataFrame)
    (out : list st.element) (e : exn) :
  np.lawful (numpy w) -> pd.rectangular results -> pd.is_unique results = true ->
  results_table w results = (out, Raised e) ->
  e = KeyError "threat_score" /\ pd.has_column results "threat_score" = false.
Proof.
  intros law Hr Hu E.
  destruct (pd.has_column results "threat_score") eqn:Hc.
  - destruct (sort_values_Ok (numpy w) results "threat_score" np.quicksort
                law Hr Hu Hc) as (ix & sorted & Es & Et & _).
    rewrite (results_table_shows w results sorted Es) in E; [discriminate|].
    now rewrite (take_is_unique results sorted ix Et).
  - rewrite (results_table_aborts w results Hc) in E. now inversion E.
Qed.

(** X4.  A run stops early in exactly three cases: no file was uploaded, the
    CSV reader raised, or the pipeline raised.  Nothing after the
    pipeline stops the run. *)
Theorem app_stops_iff (w : world) (s : st.session) :
  snd (app w s) = Stopped <->
  st.uploaded_file s = None \/
  (exists file e, st.uploaded_file s = Some file /\ read_csv w file = Raise e) \/
  (exists file data e,
     st.uploaded_file s = Some file /\ read_csv w file = Ok data /\
     analyze_paths w data = Raise e).
Proof.
  unfold app. destruct (st.uploaded_file s) as [file|] eqn:Hf; simpl.
  - destruct (read_csv w file) as [data|e] eqn:Hr; simpl.
    + destruct (analyze_paths w data) as [results|e] eqn:Ha; simpl.
      * split.
        -- destruct (display_outcome w s results)
             as [(out & out' & _ & ->)|(out & e & _ & ->)]; simpl; discriminate.
        -- intros [K|[(f & e & K & R)|(f & d & e & K & R & A)]];
             try discriminate; inversion K; subst; congruence.
      * split; [|reflexivity]. intros _. right. right. now exists file, data, e.
    + split; [|reflexivity]. intros _. right. left. now exists file, e.
  - split; [|reflexivity]. intros _. now left.
Qed.

(** X5.  With a lawful sort and a pipeline that returns rectangular frames
    with distinct column labels, the only exception a run can end with
    is the [KeyError] for the column [threat_score], and it ends so only
    when the pipeline's frame lacks that column. *)
Theorem only_missing_score_escapes (w : world) (s : st.session) (e : exn) :
  np.lawful (numpy w) ->
  (forall data results, analyze_paths w data = Ok results ->
                        pd.rectangular results /\ pd.is_unique results = true) ->
  snd (app w s) = Raised e ->
  e = KeyError "threat_score" /\
  exists file data results,
    st.uploaded_file s = Some file /\ read_csv w file = Ok data /\
    analyze_paths w data = Ok results /\
    pd.has_column results "threat_score" = false.
Proof.
  intros law Hrect. unfold app.
  destruct (st.uploaded_file s) as [file|] eqn:Hf; simpl; [|discriminate].
  destruct (read_csv w file) as [data|e0] eqn:Hr; simpl; [|discriminate].
  destruct (analyze_paths w data) as [results|e0] eqn:Ha; simpl; [|discriminate].
  destruct (display_outcome w s results)
    as [(out & out' & _ & ->)|(out & e1 & Et & ->)]; simpl; [discriminate|].
  intros K. inversion K; subst e1.
  destruct (Hrect _ _ Ha) as (Hr' & Hu).
  destruct (results_table_raises w results out e law Hr' Hu Et) as (-> & Hc).
  split; [reflexivity|]. now exists file, data, results.
Qed.

Lemma only_missing_score_escapes_witness :
  KeyError "threat_score" = KeyError "threat_score" /\
  exists file data results,
    st.uploaded_file sample_session = Some file /\
    read_csv (sample_world np.stable_on_request paths_without_scores) file
      = Ok data /\
    analyze_paths (sample_world np.stable_on_request paths_without_scores) data
      = Ok results /\
    pd.has_column results "threat_score" = false.
Proof.
  apply (only_missing_score_escapes
           (sample_world np.stable_on_request paths_without_scores)
           sample_session (KeyError "threat_score")).
  - apply stable_on_request_lawful.
  - intros data results E. inversion E. split; [repeat constructor | reflexivity].
  - reflexivity.
Defined.

(** X6.  When the pipeline returns a rectangular frame with distinct column
    labels and a [threat_score] column, the run goes to its end: whether
    or not there is a [path] column, whatever is selected, whether or not
    the button was clicked and whatever the graph libraries do. *)
Theorem run_completes (w : world) (s : st.session) (file : string)
    (data results : pd.DataFrame) :
  np.lawful (numpy w) ->
  st.uploaded_file s = Some file ->
  read_csv w file = Ok data ->
  analyze_paths w data = Ok results ->
  pd.rectangular results ->
  pd.is_unique results = true ->
  pd.has_column results "threat_score" = true ->
  exists out, app w s = (out, Done tt).
Proof.
  intros law Hf Hr Ha Hrect Hu Hc. unfold app. rewrite Hf, Hr. simpl. rewrite Ha.
  simpl.
  destruct (display_outcome w s results)
    as [(out & out' & _ & ->)|(out & e & Et & _)]; [eauto|].
  destruct (results_table_raises w results out e law Hrect Hu Et) as (_ & K).
  congruence.
Qed.

Lemma run_completes_witness :
  exists out,
    app (sample_world np.stable_on_request ranked_results) sample_session
      = (out, Done tt).
Proof.
  apply (run_completes (sample_world np.stable_on_request ranked_results)
           sample_session "log.csv" ranked_results ranked_results).
  - apply stable_on_request_lawful.
  - reflexivity.
  - reflexivity.
  - reflexivity.
  - repeat constructor.
  - reflexivity.
  - reflexivity.
Defined.

(** ** The button's action (lines 113-136) *)

(** X7.  The button's action shows either the figure alone or the error with
    the traceback alone, and ends normally: never a figure beside an
    error, never nothing. *)
Theorem render_action_figure_or_error (w : world)
    (selected_path : option pd.scalar) :
  (exists fig, render_action w selected_path = ([st.Pyplot fig], Done tt)) \/
  (exists e, render_action w selected_path =
             ([st.Error text.render_failed; st.Code e], Done tt)).
Proof.
  unfold render_action, render_graph, try_except.
  destruct (import_networkx_pyplot w) as [[]|e]; simpl; [|eauto].
  destruct (split_selected selected_path delimiter) as [processes|e]; simpl;
    [|eauto].
  destruct (build_graph processes) as [G|e]; simpl; [|eauto].
  destruct (subplots w (10, 5)%Z) as [[]|e]; simpl; [|eauto].
  destruct (spring_layout w G 42) as [pos|e]; simpl; [|eauto].
  destruct (draw w G pos true 2500 10) as [[]|e]; simpl; [|eauto].
  destruct (pyplot w _) as [[]|e]; simpl; eauto.
Qed.

(** X8.  When what the selector returned is not a string (there was no option
    to select, or the [path] column holds numbers), the button's action
    reports the [AttributeError] of [split] and draws nothing. *)
Theorem render_without_string (w : world) (selected_path : option pd.scalar) :
  import_networkx_pyplot w = Ok tt ->
  (forall p, selected_path <> Some (pd.PyStr p)) ->
  render_action w selected_path =
  ([st.Error text.render_failed; st.Code (AttributeError "split")], Done tt).
Proof.
  intros Hi Hs. unfold render_action, render_graph. rewrite Hi.
  destruct selected_path as [[x|z|p]|]; try reflexivity.
  now destruct (Hs p).
Qed.

Lemma render_without_string_witness :
  render_action (sample_world np.stable_on_request ranked_results) None =
  ([st.Error text.render_failed; st.Code (AttributeError "split")], Done tt).
Proof.
  apply (render_without_string
           (sample_world np.stable_on_request ranked_results) None).
  - reflexivity.
  - discriminate.
Defined.

(** X9.  The layout is asked for with the seed 42 and no other: two worlds
    whose layouts agree at the seed 42, and which are otherwise alike,
    give the same page for the same selection. *)
Theorem layout_seed_is_42 (w w' : world) (selected_path : option pd.scalar) :
  import_networkx_pyplot w = import_networkx_pyplot w' ->
  (forall size, subplots w size = subplots w' size) ->
  (forall G, spring_layout w G 42 = spring_layout w' G 42) ->
  (forall G pos labels node font,
     draw w G pos labels node font = draw w' G pos labels node font) ->
  (forall fig, pyplot w fig = pyplot w' fig) ->
  render_action w selected_path = render_action w' selected_path.
Proof.
  intros Hi Hf Hl Hd Hp. unfold render_action, render_graph. rewrite Hi.
  destruct (import_networkx_pyplot w') as [[]|e]; [|reflexivity].
  destruct (split_selected selected_path delimiter) as [processes|e];
    [|reflexivity].
  simpl. destruct (build_graph processes) as [G|e]; [|reflexivity].
  simpl. rewrite Hf, Hl.
  destruct (subplots w' (10, 5)%Z) as [[]|e]; [|reflexivity].
  simpl. destruct (spring_layout w' G 42) as [pos|e]; [|reflexivity].
  simpl. now rewrite Hd, Hp.
Qed.

Lemma layout_seed_is_42_witness :
  render_action (sample_world np.stable_on_request ranked_results)
    (Some (pd.PyStr "winword.exe → cmd.exe")) =
  render_action seed_42_world (Some (pd.PyStr "winword.exe → cmd.exe")).
Proof.
  apply (layout_seed_is_42 (sample_world np.stable_on_request ranked_results)
           seed_42_world); reflexivity.
Defined.

(** X10.  From the selector to the figure.  With distinct column labels, a
    [path] column of strings, a selected row and the button clicked, the
    chosen path is split and its graph built without error, and when the
    graph libraries return and [st.pyplot] renders the figure, what is
    shown after the selector and the button is the figure of that graph,
    laid out with the seed 42; when the rendering raises, it is the
    error. *)
Theorem selected_chain_is_drawn (w : world) (s : st.session)
    (results : pd.DataFrame) (paths : list string) (p : string) :
  pd.is_unique results = true ->
  pd.lookup "path" (pd.columns results) = Some (pd.Object paths) ->
  nth_error paths (st.selectbox_index s) = Some p ->
  st.button_clicked s = true ->
  import_networkx_pyplot w = Ok tt ->
  subplots w (10, 5)%Z = Ok tt ->
  exists tokens G,
    split delimiter p = Ok tokens /\
    build_graph tokens = Ok G /\
    forall pos,
      spring_layout w G 42 = Ok pos ->
      draw w G pos true 2500 10 = Ok tt ->
      (pyplot w (st.mkFigure (10, 5)%Z G pos true 2500 10) = Ok tt ->
       process_graph w s results =
       ([st.Subheader text.graph_heading; st.Write text.graph_blurb;
         st.Selectbox text.select_label (map pd.PyStr paths);
         st.Button text.render_label;
         st.Pyplot (st.mkFigure (10, 5)%Z G pos true 2500 10)], Done tt)) /\
      (forall e,
         pyplot w (st.mkFigure (10, 5)%Z G pos true 2500 10) = Raise e ->
         process_graph w s results =
         ([st.Subheader text.graph_heading; st.Write text.graph_blurb;
           st.Selectbox text.select_label (map pd.PyStr paths);
           st.Button text.render_label;
           st.Error text.render_failed; st.Code e], Done tt)).
Proof.
  intros _ Hp Hn Hb Hi Hf.
  set (tokens := split_scan (S (String.length p)) delimiter "" p).
  assert (Es : split delimiter p = Ok tokens) by reflexivity.
  clearbody tokens.
  destruct (build_graph_invariant tokens) as (G & Eg & _).
  exists tokens, G. split; [exact Es|]. split; [exact Eg|].
  intros pos Hl Hd.
  pose proof (render_action_rendering w p tokens G pos Es Eg Hi Hf Hl Hd) as Er.
  assert (Hsel : nth_error (map pd.PyStr paths) (st.selectbox_index s)
                 = Some (pd.PyStr p)) by (rewrite nth_error_map, Hn; reflexivity).
  assert (Eg' : process_graph w s results =
                (let (out, r) := render_action w (Some (pd.PyStr p)) in
                 ([st.Subheader text.graph_heading; st.Write text.graph_blurb;
                   st.Selectbox text.select_label (map pd.PyStr paths);
                   st.Button text.render_label] ++ out, r)%list)).
  { unfold process_graph, pd.has_column, pd.getitem. rewrite Hp.
    unfold selectbox, button, pd.tolist. simpl. rewrite Hb, Hsel.
    now destruct (render_action w (Some (pd.PyStr p))). }
  rewrite Eg', Er. split.
  - intros ->. reflexivity.
  - intros e ->. reflexivity.
Qed.

Lemma selected_chain_is_drawn_witness :
  exists tokens G,
    split delimiter "explorer.exe → cmd.exe" = Ok tokens /\
    build_graph tokens = Ok G /\
    forall pos,
      spring_layout (sample_world np.stable_on_request ranked_results) G 42
        = Ok pos ->
      draw (sample_world np.stable_on_request ranked_results) G pos true 2500 10
        = Ok tt ->
      (pyplot (sample_world np.stable_on_request ranked_results)
         (st.mkFigure (10, 5)%Z G pos true 2500 10) = Ok tt ->
       process_graph (sample_world np.stable_on_request ranked_results)
         sample_session ranked_results =
       ([st.Subheader text.graph_heading; st.Write text.graph_blurb;
         st.Selectbox text.select_label
           (map pd.PyStr ["explorer.exe → cmd.exe"; "winword.exe → cmd.exe";
                          "explorer.exe → cmd.exe"; "services.exe"]);
         st.Button text.render_label;
         st.Pyplot (st.mkFigure (10, 5)%Z G pos true 2500 10)], Done tt)) /\
      (forall e,
         pyplot (sample_world np.stable_on_request ranked_results)
           (st.mkFigure (10, 5)%Z G pos true 2500 10) = Raise e ->
         process_graph (sample_world np.stable_on_request ranked_results)
           sample_session ranked_results =
         ([st.Subheader text.graph_heading; st.Write text.graph_blurb;
           st.Selectbox text.select_label
             (map pd.PyStr ["explorer.exe → cmd.exe"; "winword.exe → cmd.exe";
                            "explorer.exe → cmd.exe"; "services.exe"]);
           st.Button text.render_label;
           st.Error text.render_failed; st.Code e], Done tt)).
Proof.
  apply (selected_chain_is_drawn
           (sample_world np.stable_on_request ranked_results) sample_session
           ranked_results); reflexivity.
Defined.

(** ** The graph of a chain, exactly (lines 118-127) *)

(** What one turn of the loop does, when [p] stands after [done]. *)
Lemma chain_step_at (processes done rest : list string) (p : string)
    (G : nx.DiGraph) :
  processes = (done ++ p :: rest)%list ->
  chain_step processes (List.length done) p G =
  Ok (match rest with
      | [] => nx.add_node p G
      | q :: _ => nx.add_edge p q (nx.add_node p G)
      end).
Proof.
  intros ->. unfold chain_step. rewrite length_app. simpl List.length.
  destruct rest as [|q rest].
  - replace (Z.of_nat (List.length done) <? _)%Z with false
      by (symmetry; apply Z.ltb_ge; simpl; lia).
    reflexivity.
  - replace (Z.of_nat (List.length done) <? _)%Z with true
      by (symmetry; apply Z.ltb_lt; simpl List.length; lia).
    unfold getitem.
    rewrite nth_error_app2, Nat.sub_diag by lia. simpl.
    rewrite nth_error_app2 by lia.
    replace (List.length done + 1 - List.length done)%nat with 1%nat by lia.
    reflexivity.
Qed.

(** A property kept by every turn holds of the graph the loop ends with. *)
Lemma for_enumerate_chain (Inv : list string -> list string -> nx.DiGraph -> Prop)
    (processes : list string) :
  (forall done p rest G,
     processes = (done ++ p :: rest)%list ->
     Inv done (p :: rest) G ->
     Inv (done ++ [p])%list rest
         (match rest with
          | [] => nx.add_node p G
          | q :: _ => nx.add_edge p q (nx.add_node p G)
          end)) ->
  forall rest done G,
    processes = (done ++ rest)%list ->
    Inv done rest G ->
    exists G', for_enumerate (chain_step processes) (List.length done) rest G
               = Ok G' /\ Inv processes [] G'.
Proof.
  intros Hstep. induction rest as [|p rest IH]; intros done G Hp HI.
  - rewrite app_nil_r in Hp. subst. now exists G.
  - simpl. rewrite (chain_step_at _ _ _ _ _ Hp). simpl.
    replace (List.length done + 1)%nat with (List.length (done ++ [p]))
      by (rewrite length_app; reflexivity).
    apply IH; [now rewrite <- app_assoc | now apply Hstep].
Qed.

Lemma add_node_In (n m : string) (G : nx.DiGraph) :
  In m (nx.nodes (nx.add_node n G)) <-> In m (nx.nodes G) \/ m = n.
Proof.
  destruct (add_node_spec n G) as (_ & _ & [[H ->]|[_ ->]]).
  - split; [now left | intros [K| ->]; assumption].
  - rewrite in_app_iff. simpl. intuition.
Qed.

Lemma add_edge_In (u v : string) (G : nx.DiGraph) (e : string * string) :
  In e (nx.edges (nx.add_edge u v G)) <-> In e (nx.edges G) \/ e = (u, v).
Proof.
  destruct (add_edge_spec u v G) as (_ & [[H ->]|[_ ->]]).
  - split; [now left | intros [K| ->]; assumption].
  - rewrite in_app_iff. simpl. intuition.
Qed.

Lemma add_node_edges (n : string) (G : nx.DiGraph) :
  nx.edges (nx.add_node n G) = nx.edges G.
Proof. now destruct (add_node_spec n G). Qed.

Lemma consecutive_pairs_snoc (l : list string) (a b : string) :
  consecutive_pairs (l ++ [a; b]) =
  (consecutive_pairs (l ++ [a]) ++ [(a, b)])%list.
Proof.
  induction l as [|x l IH]; [reflexivity|].
  destruct l as [|y l]; [reflexivity|].
  change (consecutive_pairs ((x :: y :: l) ++ [a; b]))
    with ((x, y) :: consecutive_pairs ((y :: l) ++ [a; b])).
  change (consecutive_pairs ((x :: y :: l) ++ [a]))
    with ((x, y) :: consecutive_pairs ((y :: l) ++ [a])).
  now rewrite IH.
Qed.

Lemma consecutive_pairs_length (l : list string) :
  List.length (consecutive_pairs l) = (List.length l - 1)%nat.
Proof.
  induction l as [|x l IH]; [reflexivity|].
  destruct l as [|y l]; [reflexivity|].
  change (consecutive_pairs (x :: y :: l))
    with ((x, y) :: consecutive_pairs (y :: l)).
  simpl List.length in *. lia.
Qed.

Lemma consecutive_pairs_snd (l : list string) (u v : string) :
  In (u, v) (consecutive_pairs l) -> In u l /\ In v l.
Proof.
  induction l as [|x l IH]; [intros []|].
  destruct l as [|y l]; [intros []|].
  change (consecutive_pairs (x :: y :: l))
    with ((x, y) :: consecutive_pairs (y :: l)).
  intros [E|H].
  - inversion E; subst. split; [now left | right; now left].
  - destruct (IH H). split; now right.
Qed.

Lemma touched_snoc (done rest : list string) (p : string) :
  touched (done ++ [p]) rest = (done ++ p :: firstn 1 rest)%list.
Proof.
  unfold touched. destruct (done ++ [p])%list eqn:E; [now destruct done|].
  rewrite <- E, <- app_assoc. reflexivity.
Qed.

Lemma touched_all (processes : list string) : touched processes [] = processes.
Proof. destruct processes; simpl; [reflexivity | now rewrite app_nil_r]. Qed.

(** X11.  The nodes of the graph are the tokens, and its edges are the pairs
    of a token and the token after it: nothing else is in the graph and
    none of these is left out. *)
Theorem build_graph_members (processes : list string) :
  exists G,
    build_graph processes = Ok G /\
    (forall n, In n (nx.nodes G) <-> In n processes) /\
    (forall e, In e (nx.edges G) <-> In e (consecutive_pairs processes)).
Proof.
  set (Inv := fun (done rest : list string) (G : nx.DiGraph) =>
         (forall n, In n (nx.nodes G) <-> In n (touched done rest)) /\
         (forall e, In e (nx.edges G) <->
                    In e (consecutive_pairs (touched done rest)))).
  assert (Hstep : forall done p rest G,
            processes = (done ++ p :: rest)%list ->
            Inv done (p :: rest) G ->
            Inv (done ++ [p])%list rest
                (match rest with
                 | [] => nx.add_node p G
                 | q :: _ => nx.add_edge p q (nx.add_node p G)
                 end)).
  { unfold Inv. intros done p rest G _ (Hn & He). rewrite touched_snoc.
    assert (Hn1 : forall n, In n (nx.nodes (nx.add_node p G)) <->
                            In n (done ++ [p])).
    { intros n. rewrite add_node_In, Hn, in_app_iff. simpl.
      unfold touched. destruct done; simpl; [intuition congruence|].
      rewrite in_app_iff. simpl. intuition congruence. }
    assert (He1 : forall e, In e (nx.edges (nx.add_node p G)) <->
                            In e (consecutive_pairs (done ++ [p]))).
    { intros e. rewrite add_node_edges, He. unfold touched.
      destruct done as [|d done]; [simpl; tauto | reflexivity]. }
    destruct rest as [|q rest]; simpl firstn.
    - split; assumption.
    - split.
      + intros n. rewrite add_edge_nodes. rewrite add_node_In. rewrite add_node_In.
        rewrite Hn1, !in_app_iff. simpl. intuition congruence.
      + intros e. rewrite add_edge_In, He1, consecutive_pairs_snoc, in_app_iff.
        simpl. intuition congruence. }
  destruct (for_enumerate_chain Inv processes Hstep processes [] nx.empty eq_refl)
    as (G & E & Hn & He).
  { unfold Inv. simpl. split; intros; tauto. }
  rewrite touched_all in Hn, He. now exists G.
Qed.

Lemma digraph_eta (G : nx.DiGraph) : G = nx.mkDiGraph (nx.nodes G) (nx.edges G).
Proof. now destruct G. Qed.

(** X12.  A chain in which no process occurs twice gives the path graph: its
    nodes are the tokens in their order, its edges are the pairs of a
    token and the token after it in their order, one edge fewer than
    nodes. *)
Theorem build_graph_of_distinct (processes : list string) :
  NoDup processes ->
  build_graph processes =
    Ok (nx.mkDiGraph processes (consecutive_pairs processes)) /\
  (nx.number_of_edges (nx.mkDiGraph processes (consecutive_pairs processes))
   = List.length processes - 1)%nat.
Proof.
  intros Hnd. split; [|apply consecutive_pairs_length].
  set (Inv := fun (done rest : list string) (G : nx.DiGraph) =>
         G = nx.mkDiGraph (touched done rest)
               (consecutive_pairs (touched done rest))).
  assert (Hstep : forall done p rest G,
            processes = (done ++ p :: rest)%list ->
            Inv done (p :: rest) G ->
            Inv (done ++ [p])%list rest
                (match rest with
                 | [] => nx.add_node p G
                 | q :: _ => nx.add_edge p q (nx.add_node p G)
                 end)).
  { unfold Inv. intros done p rest G Hp ->. rewrite touched_snoc.
    assert (E1 : nx.add_node p
                   (nx.mkDiGraph (touched done (p :: rest))
                      (consecutive_pairs (touched done (p :: rest))))
                 = nx.mkDiGraph (done ++ [p]) (consecutive_pairs (done ++ [p]))).
    { destruct done as [|d done]; [reflexivity|].
      unfold touched. simpl firstn. apply add_node_present. simpl nx.nodes.
      right. apply in_or_app. right. now left. }
    rewrite E1. destruct rest as [|q rest]; simpl firstn; [reflexivity|].
    assert (Hq : ~ In q (done ++ [p])).
    { subst processes.
      replace (done ++ p :: q :: rest)%list
        with ((done ++ [p]) ++ q :: rest)%list in Hnd
        by (rewrite <- app_assoc; reflexivity).
      apply NoDup_remove_2 in Hnd. intros K. apply Hnd.
      apply in_or_app. now left. }
    set (G1 := nx.mkDiGraph (done ++ [p]) (consecutive_pairs (done ++ [p]))).
    assert (Hp1 : In p (nx.nodes G1)) by (apply in_or_app; right; now left).
    rewrite (digraph_eta (nx.add_edge p q G1)).
    rewrite add_edge_nodes, (add_node_present p G1 Hp1).
    destruct (add_node_spec q G1) as (_ & _ & [[K _]|[_ ->]]);
      [now destruct (Hq K)|].
    destruct (add_edge_spec p q G1) as (_ & [[K _]|[_ ->]]).
    - apply consecutive_pairs_snd in K. now destruct (Hq (proj2 K)).
    - simpl nx.nodes. simpl nx.edges.
      rewrite <- app_assoc, consecutive_pairs_snoc. reflexivity. }
  destruct (for_enumerate_chain Inv processes Hstep processes [] nx.empty eq_refl)
    as (G & E & HG).
  { reflexivity. }
  unfold Inv in HG. rewrite touched_all in HG. subst G. exact E.
Qed.

Lemma build_graph_of_distinct_witness :
  build_graph ["winword.exe"; "cmd.exe"; "powershell.exe"] =
    Ok (nx.mkDiGraph ["winword.exe"; "cmd.exe"; "powershell.exe"]
          (consecutive_pairs ["winword.exe"; "cmd.exe"; "powershell.exe"])) /\
  (nx.number_of_edges
     (nx.mkDiGraph ["winword.exe"; "cmd.exe"; "powershell.exe"]
        (consecutive_pairs ["winword.exe"; "cmd.exe"; "powershell.exe"]))
   = List.length ["winword.exe"; "cmd.exe"; "powershell.exe"] - 1)%nat.
Proof.
  apply (build_graph_of_distinct ["winword.exe"; "cmd.exe"; "powershell.exe"]).
  repeat constructor; simpl; intuition discriminate.
Defined.

(** ** Splitting and joining (line 120) *)

Lemma removeprefix_append (sep rest : string) :
  removeprefix sep (sep ++ rest) = Some rest.
Proof.
  induction sep as [|a sep IH]; simpl; [reflexivity|].
  now rewrite Ascii.eqb_refl.
Qed.

(** X13.  A path string is a single token exactly when the delimiter does not
    occur in it, and the token is then the path string itself. *)
Theorem single_token_iff (s : string) :
  (exists t, split delimiter s = Ok [t]) <-> contains delimiter s = false.
Proof.
  assert (Hd : delimiter <> "") by discriminate.
  change (split delimiter s)
    with (Ok (split_scan (S (String.length s)) delimiter "" s)).
  split.
  - intros (t & E).
    pose proof (join_split_scan delimiter Hd (S (String.length s)) "" s
                  (Nat.lt_succ_diag_r _)) as Hj.
    pose proof (split_scan_no_separator delimiter Hd (S (String.length s)) "" s
                  (Nat.lt_succ_diag_r _)) as Hn.
    remember (split_scan (S (String.length s)) delimiter "" s) as tokens.
    inversion E as [E']. rewrite E' in Hj, Hn. simpl in Hj. subst t.
    assert (Hf : Forall (fun t => contains delimiter t = false) [s]).
    { apply Hn. intros [|? ?] q Hq Hne; simpl in Hq; [congruence | discriminate]. }
    now inversion Hf.
  - intros Hc. exists s.
    now rewrite (split_scan_single _ _ "" s (Nat.lt_succ_diag_r _) Hc).
Qed.

(** A token without a space is read through without a match. *)
Lemma scan_token (t cur rest : string) (fuel : nat) :
  has_char " " t = false ->
  split_scan (String.length t + fuel) delimiter cur (t ++ rest) =
  split_scan fuel delimiter (cur ++ t) rest.
Proof.
  revert cur; induction t as [|c t IH]; intros cur H.
  - simpl. now rewrite append_nil_r.
  - simpl in H. apply orb_false_iff in H. destruct H as [Hc Ht].
    simpl. unfold delimiter at 1. simpl removeprefix. rewrite Hc.
    rewrite IH by assumption. now rewrite append_assoc.
Qed.

Lemma split_scan_join (tokens : list string) :
  Forall (fun t => has_char " " t = false) tokens ->
  forall t0 cur fuel,
    (String.length (join delimiter (t0 :: tokens)) < fuel)%nat ->
    has_char " " t0 = false ->
    split_scan fuel delimiter cur (join delimiter (t0 :: tokens)) =
    (cur ++ t0) :: tokens.
Proof.
  induction 1 as [|t1 tokens H1 _ IH]; intros t0 cur fuel Hlen H0.
  - change (join delimiter [t0]) with t0 in *.
    pose proof (scan_token t0 cur "" (fuel - String.length t0) H0) as E.
    rewrite append_nil_r in E.
    replace (String.length t0 + (fuel - String.length t0))%nat with fuel in E
      by lia.
    rewrite E. destruct (fuel - String.length t0)%nat eqn:E'; [lia | reflexivity].
  - rewrite join_cons in * by discriminate.
    rewrite !length_append in Hlen.
    change (String.length delimiter) with 5%nat in Hlen.
    pose proof (scan_token t0 cur (delimiter ++ join delimiter (t1 :: tokens))
                  (fuel - String.length t0) H0) as E.
    replace (String.length t0 + (fuel - String.length t0))%nat with fuel in E
      by lia.
    rewrite E.
    destruct (fuel - String.length t0)%nat as [|fuel'] eqn:E'; [lia|].
    cbn [split_scan]. rewrite removeprefix_append.
    rewrite IH; [reflexivity | lia | assumption].
Qed.

(** X14.  Round trip.  Process names without a space, joined by the delimiter,
    are split back into the same names in the same order. *)
Theorem split_join_round_trip (tokens : list string) :
  tokens <> [] ->
  Forall (fun t => has_char " " t = false) tokens ->
  split delimiter (join delimiter tokens) = Ok tokens.
Proof.
  intros Hne Hall. destruct tokens as [|t0 tokens]; [congruence|].
  inversion Hall as [|? ? H0 Hrest]; subst.
  change (split delimiter (join delimiter (t0 :: tokens)))
    with (Ok (split_scan (S (String.length (join delimiter (t0 :: tokens))))
                delimiter "" (join delimiter (t0 :: tokens)))).
  rewrite (split_scan_join tokens Hrest t0 "" _ (Nat.lt_succ_diag_r _) H0).
  reflexivity.
Qed.

Lemma split_join_round_trip_witness :
  split delimiter (join delimiter ["winword.exe"; "cmd.exe"; "cmd.exe"]) =
  Ok ["winword.exe"; "cmd.exe"; "cmd.exe"].
Proof.
  apply (split_join_round_trip ["winword.exe"; "cmd.exe"; "cmd.exe"]).
  - discriminate.
  - repeat constructor.
Defined.

(** ** The shape of the views (lines 45, 76-80, 88-93) *)

(** X15.  The raw preview.  Whenever the file is read, the fifth element of the
    page is the preview of the data: its first [min 50 n] rows under all
    its column labels, whatever happens afterwards. *)
Theorem raw_preview_shape (w : world) (s : st.session) (file : string)
    (data : pd.DataFrame) :
  st.uploaded_file s = Some file ->
  read_csv w file = Ok data ->
  exists preview rest outcome,
    app w s =
      (st.Title text.title :: st.Write text.intro
       :: st.FileUploader text.upload_label
       :: st.Subheader text.raw_preview :: st.Dataframe preview :: rest,
       outcome) /\
    preview = pd.head data 50 /\
    pd.len preview = Nat.min 50 (pd.len data) /\
    map fst (pd.columns preview) = map fst (pd.columns data).
Proof.
  intros Hf Hr. destruct (head_shape data 50) as (Hl & Hc & _).
  unfold app. rewrite Hf, Hr. simpl.
  destruct (analyze_paths w data) as [results|e]; simpl.
  - destruct (display w s results) as [out o]. simpl.
    exists (pd.head data 50). eexists. eexists. split; [reflexivity|].
    now repeat split.
  - exists (pd.head data 50). eexists. eexists. split; [reflexivity|].
    now repeat split.
Qed.

Lemma raw_preview_shape_witness :
  exists preview rest outcome,
    app (sample_world np.stable_on_request ranked_results) sample_session =
      (st.Title text.title :: st.Write text.intro
       :: st.FileUploader text.upload_label
       :: st.Subheader text.raw_preview :: st.Dataframe preview :: rest,
       outcome) /\
    preview = pd.head ranked_results 50 /\
    pd.len preview = Nat.min 50 (pd.len ranked_results) /\
    map fst (pd.columns preview) = map fst (pd.columns ranked_results).
Proof.
  apply (raw_preview_shape (sample_world np.stable_on_request ranked_results)
           sample_session "log.csv" ranked_results); reflexivity.
Defined.

(** X16.  The ranked table has [min 50 n] rows for a result set of [n] rows,
    it has the columns of the result set under the same labels, and it
    is rectangular. *)
Theorem ranked_table_shape (w : world) (results : pd.DataFrame) :
  np.lawful (numpy w) ->
  pd.rectangular results ->
  pd.is_unique results = true ->
  pd.has_column results "threat_score" = true ->
  exists view,
    results_table w results =
      ([st.Subheader text.ranked_heading; st.Write text.ranked_blurb;
        st.Dataframe view], Done results) /\
    pd.len view = Nat.min 50 (pd.len results) /\
    pd.rectangular view /\
    map fst (pd.columns view) = map fst (pd.columns results).
Proof.
  intros law Hr Hu Hc.
  destruct (sort_values_Ok (numpy w) results "threat_score" np.quicksort
              law Hr Hu Hc) as (ix & sorted & E & Et & P).
  destruct (take_shape results sorted ix Et) as (Hl & Hrs & Hcs).
  destruct (head_shape sorted 50) as (Hhl & Hhc & Hhr).
  exists (pd.head sorted 50). repeat split.
  - apply results_table_shows; [exact E|].
    now rewrite (take_is_unique results sorted ix Et).
  - rewrite Hhl, Hl, (Permutation_length P), length_seq. reflexivity.
  - now apply Hhr.
  - now rewrite Hhc.
Qed.

Lemma ranked_table_shape_witness :
  exists view,
    results_table (sample_world np.stable_on_request ranked_results) ranked_results =
      ([st.Subheader text.ranked_heading; st.Write text.ranked_blurb;
        st.Dataframe view], Done ranked_results) /\
    pd.len view = Nat.min 50 (pd.len ranked_results) /\
    pd.rectangular view /\
    map fst (pd.columns view) = map fst (pd.columns ranked_results).
Proof.
  apply (ranked_table_shape (sample_world np.stable_on_request ranked_results)
           ranked_results).
  - apply stable_on_request_lawful.
  - repeat constructor.
  - reflexivity.
  - reflexivity.
Defined.

(** ** What the chart and the top of the table show *)

(** X17.  The series of the chart.  With distinct column labels, a [path]
    column of strings and a [threat_score] column of floats, the series
    handed to [st.bar_chart] has [min 15 n] entries; the k-th entry
    carries the path and the score of one and the same row, the row at
    the k-th position of the descending order. *)
Theorem chart_bars (w : world) (results : pd.DataFrame) (paths : list string)
    (scores : list spec_float) :
  np.lawful (numpy w) ->
  pd.rectangular results ->
  pd.is_unique results = true ->
  pd.lookup "path" (pd.columns results) = Some (pd.Object paths) ->
  pd.lookup "threat_score" (pd.columns results) = Some (pd.Float64 scores) ->
  exists ix ps vs,
    threat_score_plot w results =
      ([st.Subheader text.top15_heading;
        st.BarChart (pd.mkSeries (pd.Object ps) (pd.Float64 vs))],
       Done results) /\
    map Some ps = map (nth_error paths) (firstn 15 ix) /\
    map Some vs = map (nth_error scores) (firstn 15 ix) /\
    List.length ps = Nat.min 15 (pd.len results) /\
    Permutation ix (seq 0 (pd.len results)) /\
    StronglySorted (pd.descending SFltb pd.isna scores) ix.
Proof.
  intros law Hr Hu Hp Hs.
  destruct (sort_values_descending (numpy w) results "threat_score" np.quicksort
              _ law Hr Hu Hs) as (ix & sorted & E & Et & P & Hd & _).
  pose proof (lookup_take results sorted ix "path" Et) as Lp.
  pose proof (lookup_take results sorted ix "threat_score" Et) as Lt.
  rewrite Hp in Lp. rewrite Hs in Lt.
  destruct Lp as (cp & Tp & Lp). destruct Lt as (ct & Tt & Lt).
  simpl in Tp, Tt.
  destruct (np.take paths ix) as [ps|] eqn:Eps; [|discriminate].
  destruct (np.take scores ix) as [vs|] eqn:Evs; [|discriminate].
  simpl in Tp, Tt. inversion Tp; subst cp. inversion Tt; subst ct.
  exists ix, (firstn 15 ps), (firstn 15 vs). repeat split.
  - apply (threat_score_plot_shows w results sorted); [exact E|].
    apply (chart_of_sorted sorted _ _ Lp Lt).
  - rewrite <- !firstn_map. now rewrite (np_take_spec _ _ _ Eps).
  - rewrite <- !firstn_map. now rewrite (np_take_spec _ _ _ Evs).
  - rewrite length_firstn, (np_take_length _ _ _ Eps), (Permutation_length P),
      length_seq. reflexivity.
  - exact P.
  - exact Hd.
Qed.

Lemma chart_bars_witness :
  exists ix ps vs,
    threat_score_plot (sample_world np.stable_on_request ranked_results)
      ranked_results =
      ([st.Subheader text.top15_heading;
        st.BarChart (pd.mkSeries (pd.Object ps) (pd.Float64 vs))],
       Done ranked_results) /\
    map Some ps =
      map (nth_error ["explorer.exe → cmd.exe"; "winword.exe → cmd.exe";
                      "explorer.exe → cmd.exe"; "services.exe"]) (firstn 15 ix) /\
    map Some vs =
      map (nth_error [float_of_Z 2; float_of_Z 9; S754_nan; float_of_Z 5])
          (firstn 15 ix) /\
    List.length ps = Nat.min 15 (pd.len ranked_results) /\
    Permutation ix (seq 0 (pd.len ranked_results)) /\
    StronglySorted
      (pd.descending SFltb pd.isna
         [float_of_Z 2; float_of_Z 9; S754_nan; float_of_Z 5]) ix.
Proof.
  apply (chart_bars (sample_world np.stable_on_request ranked_results)
           ranked_results).
  - apply stable_on_request_lawful.
  - repeat constructor.
  - reflexivity.
  - reflexivity.
  - reflexivity.
Defined.

Lemma SFltb_irrefl (x : spec_float) : SFltb x x = false.
Proof.
  destruct (pd.isna x) eqn:N.
  - destruct x; try discriminate. reflexivity.
  - destruct (SFltb_strict_weak [x]) with (x := x) (y := x) (z := x) as (H & _);
      try (now left); [|exact H].
    now constructor.
Qed.

(** X18.  The top of the ranking.  The row shown first has a score that no
    other row with a score exceeds: whenever some row has a score that is
    not NaN, the first row has one too, and it is not smaller. *)
Theorem top_row_has_highest_score (w : world) (results : pd.DataFrame)
    (scores : list spec_float) :
  np.lawful (numpy w) ->
  pd.rectangular results ->
  pd.is_unique results = true ->
  pd.lookup "threat_score" (pd.columns results) = Some (pd.Float64 scores) ->
  exists ix view,
    results_table w results =
      ([st.Subheader text.ranked_heading; st.Write text.ranked_blurb;
        st.Dataframe view], Done results) /\
    pd.take results (firstn 50 ix) = Ok view /\
    forall top rest j x y,
      ix = top :: rest ->
      nth_error scores top = Some x ->
      nth_error scores j = Some y ->
      pd.isna y = false ->
      pd.isna x = false /\ SFltb x y = false.
Proof.
  intros law Hr Hu Hs.
  destruct (results_table_sorted w results _ law Hr Hu Hs)
    as (ix & sorted & E & Et & P & Hd & Etable).
  exists ix, (pd.head sorted 50).
  split; [exact Etable|]. split; [now apply take_head|].
  intros top rest j x y Hix Hx Hy Ny.
  destruct (Nat.eq_dec j top) as [->|Hne].
  - rewrite Hx in Hy. inversion Hy; subst y. split; [exact Ny | apply SFltb_irrefl].
  - subst ix. inversion Hd as [|? ? _ Hf]; subst.
    rewrite Forall_forall in Hf.
    assert (Hj : In j rest).
    { assert (K : In j (top :: rest)).
      { apply (Permutation_in _ (Permutation_sym P)), in_seq.
        assert (L : j < List.length scores)
          by (apply nth_error_Some; congruence).
        pose proof (lookup_size results "threat_score" _ Hr Hs) as Hlen.
        simpl in Hlen. lia. }
      destruct K as [K|K]; [congruence | exact K]. }
    destruct (Hf j Hj x y Hx Hy) as [(Nx & _ & L)|[(_ & K)|(_ & K & _)]];
      [now split | congruence | congruence].
Qed.

Lemma top_row_has_highest_score_witness :
  exists ix view,
    results_table (sample_world np.stable_on_request ranked_results) ranked_results =
      ([st.Subheader text.ranked_heading; st.Write text.ranked_blurb;
        st.Dataframe view], Done ranked_results) /\
    pd.take ranked_results (firstn 50 ix) = Ok view /\
    forall top rest j x y,
      ix = top :: rest ->
      nth_error [float_of_Z 2; float_of_Z 9; S754_nan; float_of_Z 5] top = Some x ->
      nth_error [float_of_Z 2; float_of_Z 9; S754_nan; float_of_Z 5] j = Some y ->
      pd.isna y = false ->
      pd.isna x = false /\ SFltb x y = false.
Proof.
  apply (top_row_has_highest_score
           (sample_world np.stable_on_request ranked_results) ranked_results).
  - apply stable_on_request_lawful.
  - repeat constructor.
  - reflexivity.
  - reflexivity.
Defined.

(** ** The selector without a click (lines 107-113) *)

(** X19.  Without a click on the button nothing is split, built or drawn: the
    stage shows the selector with one option for each row and the
    button, and the graph libraries are not used at all. *)
Theorem no_click_no_graph (w : world) (s : st.session) (results : pd.DataFrame)
    (paths : pd.column) :
  pd.lookup "path" (pd.columns results) = Some paths ->
  st.button_clicked s = false ->
  process_graph w s results =
  ([st.Subheader text.graph_heading; st.Write text.graph_blurb;
    st.Selectbox text.select_label
      (pd.tolist (pd.mkSeries (pd.index results) paths));
    st.Button text.render_label], Done tt).
Proof.
  intros Hp Hb. unfold process_graph, pd.has_column, pd.getitem. rewrite Hp.
  unfold selectbox, button. simpl. now rewrite Hb.
Qed.

Lemma no_click_no_graph_witness :
  process_graph (sample_world np.stable_on_request ranked_results) idle_session
    ranked_results =
  ([st.Subheader text.graph_heading; st.Write text.graph_blurb;
    st.Selectbox text.select_label
      (pd.tolist
         (pd.mkSeries (pd.index ranked_results)
            (pd.Object ["explorer.exe → cmd.exe"; "winword.exe → cmd.exe";
                        "explorer.exe → cmd.exe"; "services.exe"])));
    st.Button text.render_label], Done tt).
Proof.
  apply (no_click_no_graph (sample_world np.stable_on_request ranked_results)
           idle_session ranked_results); reflexivity.
Defined.

(** ** A repeated column label (lines 76-80) *)

(** X20.  A pipeline frame in which a label heads more than one column ends
    the run at the table stage, after the two lines above the table and
    before the table: at the sort, with the [ValueError] of pandas, when
    the repeated label is [threat_score]; at [st.dataframe] otherwise.
    Neither the chart nor the selector is reached. *)
Theorem repeated_label_aborts (w : world) (s : st.session) (file : string)
    (data results : pd.DataFrame) :
  np.lawful (numpy w) ->
  st.uploaded_file s = Some file ->
  read_csv w file = Ok data ->
  analyze_paths w data = Ok results ->
  pd.rectangular results ->
  pd.has_column results "threat_score" = true ->
  pd.is_unique results = false ->
  exists e,
    app w s =
    ([st.Title text.title;
      st.Write text.intro;
      st.FileUploader text.upload_label;
      st.Subheader text.raw_preview;
      st.Dataframe (pd.head data 50);
      st.Subheader text.running;
      st.Success text.completed;
      st.Subheader text.ranked_heading;
      st.Write text.ranked_blurb],
     Raised e) /\
    ((1 < pd.count "threat_score" (pd.columns results))%nat ->
     e = ValueError "The column label 'threat_score' is not unique.").
Proof.
  intros law Hf Hd Ha Hr Hc Hu.
  assert (Et : exists e,
             results_table w results =
               ([st.Subheader text.ranked_heading; st.Write text.ranked_blurb],
                Raised e) /\
             ((1 < pd.count "threat_score" (pd.columns results))%nat ->
              e = ValueError "The column label 'threat_score' is not unique.")).
  { destruct (Nat.ltb_spec 1 (pd.count "threat_score" (pd.columns results)))
      as [Hn|Hn].
    - eexists. split; [|reflexivity].
      unfold results_table.
      now rewrite (sort_values_ambiguous (numpy w) results "threat_score"
                     false false np.quicksort Hn).
    - unfold pd.has_column in Hc.
      destruct (pd.lookup "threat_score" (pd.columns results)) as [c|] eqn:El;
        [|discriminate].
      assert (H1 : pd.count "threat_score" (pd.columns results) = 1%nat).
      { destruct (pd.count "threat_score" (pd.columns results)) as [|[|n]] eqn:En;
          [|reflexivity|lia].
        apply count_lookup in En. congruence. }
      destruct (sort_values_by_one (numpy w) results "threat_score" np.quicksort
                  c law Hr H1 El) as (ix & sorted & E & Etake & _).
      exists (ValueError "Duplicate column names found"). split; [|lia].
      unfold results_table. rewrite E.
      cbn [lift show and_then pd.head_of List.app]. unfold dataframe.
      now rewrite head_is_unique, (take_is_unique results sorted ix Etake), Hu. }
  destruct Et as (e & Et & He). exists e. split; [|exact He].
  unfold app. rewrite Hf, Hd. simpl. rewrite Ha. simpl.
  unfold display. rewrite Et. reflexivity.
Qed.

Lemma repeated_label_aborts_witness :
  exists e,
    app repeated_label_world sample_session =
    ([st.Title text.title;
      st.Write text.intro;
      st.FileUploader text.upload_label;
      st.Subheader text.raw_preview;
      st.Dataframe (pd.head ranked_results 50);
      st.Subheader text.running;
      st.Success text.completed;
      st.Subheader text.ranked_heading;
      st.Write text.ranked_blurb],
     Raised e) /\
    ((1 < pd.count "threat_score" (pd.columns repeated_score_label))%nat ->
     e = ValueError "The column label 'threat_score' is not unique.").
Proof.
  apply (repeated_label_aborts repeated_label_world sample_session "log.csv"
           ranked_results repeated_score_label).
  - apply all_stable_lawful.
  - reflexivity.
  - reflexivity.
  - reflexivity.
  - repeat constructor.
  - reflexivity.
  - reflexivity.
Defined.
